(** * The travel sequence of space-cv: TravelSystem, HyperspaceTravel,
      TravelConfirmation and TravelAudio

    A shallow embedding of the four JavaScript classes that drive the
    "travel to a planet" sequence.  Every object is a record, every method a
    function on the whole [world] (the four objects share the scene, the DOM
    and the browser's timer queue).  [setTimeout] is modelled by an explicit
    queue of pending timers and an event loop that fires them in due order;
    a JavaScript exception is the [Thrown] outcome, which keeps the writes
    made before the throw.

    Not modelled: console output, CSS styling, and the per-frame animation
    ([update], [updateHyperspace], [updatePlanetApproach], the geometry that
    [resetStarPosition] draws from [Math.random]); no phase logic reads
    them.  [dispose] is not modelled either: every state below is a state of
    live objects. *)

From stdpp Require Import gmap strings list fin_maps.
From Stdlib Require Import ZArith QArith.

Open Scope Z_scope.
Open Scope string_scope.

(** ** JavaScript values and object literals *)

(** What a property read or a method may hand to the DOM. *)
Inductive jsval :=
| VString (s : string)
| VBuiltin (name : string)     (* a function or object inherited from Object.prototype *)
| VUndefined.

(** The properties every object literal inherits from [Object.prototype]. *)
Definition object_prototype_keys : list string :=
  [ "constructor"; "__proto__"; "hasOwnProperty"; "isPrototypeOf";
    "propertyIsEnumerable"; "toLocaleString"; "toString"; "valueOf";
    "__defineGetter__"; "__defineSetter__"; "__lookupGetter__";
    "__lookupSetter__" ].

(** The result of [obj[key]] on an object literal [obj = { ... }]. *)
Inductive js_get (A : Type) :=
| Own (a : A)
| Inherited (name : string)
| Missing.
Arguments Own {A} a.
Arguments Inherited {A} name.
Arguments Missing {A}.

Definition obj_get {A : Type} (o : gmap string A) (k : string) : js_get A :=
  match o !! k with
  | Some a => Own a
  | None => if bool_decide (k ∈ object_prototype_keys) then Inherited k else Missing
  end.

(** [String.prototype.includes]. *)
Fixpoint is_prefix (p s : string) : bool :=
  match p, s with
  | EmptyString, _ => true
  | String a p', String b s' => if Ascii.eqb a b then is_prefix p' s' else false
  | String _ _, EmptyString => false
  end.

Fixpoint includes (s sub : string) : bool :=
  if is_prefix sub s then true
  else match s with
       | EmptyString => false
       | String _ s' => includes s' sub
       end.

(** ** Data *)

(** A planet as the travel code uses it: [planet.id] and the [name] and
    [description] of [planet.getInfo()]. *)
Record planet := Planet {
  planet_id : string;
  info_name : string;
  info_description : string }.

(** HTML handed to the content modal: the result of one of the application's
    getters, or a literal of the travel code. *)
Inductive app_getter :=
| getWorkContent | getEducationContent | getSkillsContent | getProjectsContent
| getCommunityContent | getContactContent | getPortfolioContent.

Inductive html :=
| AppContent (g : app_getter)
| Literal (s : string).

Definition vec3 : Type := Z * Z * Z.

(** A camera orientation: a stored quaternion, or the orientation that
    [camera.lookAt(target)] computes from a position. *)
Inductive orientation :=
| Quaternion (q : Z * Z * Z * Z)
| LookingAt (from target : vec3).

Record scene_object := SceneObject {
  obj_name : string;
  obj_type : string;
  obj_visible : bool;
  wasVisibleBeforeTravel : bool }.

(** The scene host: scene, renderer and camera.  The travel group, its stars
    and the approach planet are kept in [ht_state]; [objects] are all other
    objects that [scene.traverse] visits.  [scene.background] and
    [scene.fog] may be null; the renderer always has a clear colour, and its
    clear alpha is whatever was last stored, null included. *)
Record scene_state := Scene {
  background : option Z;
  fog : option Z;
  clearColor : Z;
  clearAlpha : option Z;
  camera_position : vec3;
  camera_quaternion : orientation;
  objects : list scene_object }.

Record dom_state := Dom {
  cockpit_active : bool;              (* body.classList has 'cockpit-active' *)
  content_overlay_hidden : bool;      (* #content-overlay has class 'hidden' *)
  content_title : jsval;              (* #content-title textContent *)
  content_body : html;                (* #content-body innerHTML *)
  return_button : bool;               (* .modal-footer holds #return-to-orbit *)
  return_listener : bool;             (* ... with a click listener attached *)
  status_display : string;            (* #travel-status-display *)
  canvas_pointer_events : bool;       (* #space-canvas pointer-events: auto *)
  planet_info_hidden : bool;          (* #planet-info has class 'hidden' *)
  controls_travel_hidden : bool;      (* #controls-info has class 'travel-hidden' *)
  fade_overlays : nat }.              (* fade overlays attached to body *)

(** The application host ([travelSystem.app]).  Its class is not part of the
    travel code. *)
Record app_state := App {
  interactions_enabled : bool;
  animations_restarted : bool;
  content_queries : list string;      (* arguments of getContentForPlanet, oldest first *)
  app_calls : list app_getter }.      (* content getters called, oldest first *)

(** *** Timers *)

Inductive callback :=
| CbConfirmEntrance        (* TravelConfirmation.show, 50 ms *)
| CbConfirmHidden          (* TravelConfirmation.hide, 300 ms *)
| CbConfirmLaunch          (* TravelConfirmation.handleConfirm, 800 ms *)
| CbHsToApproach           (* HyperspaceTravel.startTravel *)
| CbHsArrive               (* HyperspaceTravel.transitionToApproach *)
| CbHsShowContent          (* HyperspaceTravel.arriveAtPlanet, 500 ms *)
| CbFadeBlack              (* HyperspaceTravel.fadeTransition, 500 ms *)
| CbFadeBack               (* ... then 200 ms *)
| CbFadeRemove             (* ... then 500 ms *)
| CbAudioEnd               (* TravelAudio.simulateAudioDuration *)
| CbTsHyperspaceValidation (* phaseTimers.hyperspaceValidation, 100 ms *)
| CbTsApproachTransition   (* phaseTimers.approachTransition *)
| CbTsHyperspaceHide       (* phaseTimers.hyperspaceHide *)
| CbTsApproachStart        (* phaseTimers.approachStart *)
| CbTsContentDisplay       (* phaseTimers.contentDisplay *)
| CbTsShowContent.         (* phaseTimers.showContent *)

Record timer := Timer {
  timer_id : nat;
  due : Z;
  action : callback }.

(** *** The four objects *)

Record camera_snapshot := CameraSnapshot {
  cameraPosition : vec3;
  cameraQuaternion : orientation;
  cameraLookAt : vec3;
  sceneBackground : option Z;
  rendererClearColor : option Z;
  rendererClearAlpha : option Z }.

Record ts_state := TS {
  isTravel : bool;
  ts_currentPhase : string;
  ts_selectedPlanet : option planet;
  travelStartTime : Z;
  originalState : camera_snapshot;
  phaseTimers : gmap string nat }.

Record tc_state := TC {
  isVisible : bool;
  tc_selectedPlanet : option planet;
  overlay_hidden : bool;              (* the overlay has class 'hidden' *)
  overlay_entered : bool;             (* opacity 1, modal at scale 1 *)
  buttons_disabled : bool;
  modal_planet_name : string }.

Record scene_snapshot := SceneSnapshot {
  snap_background : option Z;
  snap_fog : option Z;
  snap_clearColor : option Z;
  snap_clearAlpha : option Z }.

Record approach_mesh := ApproachMesh {
  surface_colour : option Z }.

Record ht_state := HT {
  isActive : bool;
  ht_currentPhase : string;
  ht_selectedPlanet : option planet;
  startTime : Z;
  warpSpeed : Z;
  travelGroup_visible : bool;
  stars : list bool;                  (* star.visible *)
  approachPlanet : option approach_mesh;
  originalSceneState : scene_snapshot;
  blackScreen_shown : bool;
  cockpitOverlay_shown : bool }.

Record audio_data := AudioData {
  url : option string;
  duration : Z;
  loaded : bool;
  audioBuffer : bool;                 (* a decoded buffer is attached *)
  audioElement : bool }.              (* an HTML5 audio element is attached *)

Inductive audio_handle := WebAudioSource | Html5Element.

Record ta_state := TA {
  isPlaying : bool;
  currentAudio : option audio_handle;
  audioContext : bool;                (* the Web Audio context was created *)
  audioFiles : gmap string audio_data }.

Record world := World {
  clock : Z;                          (* Date.now(), in ms *)
  timers : list timer;                (* pending setTimeout calls *)
  next_timer : nat;                   (* the id the next setTimeout returns *)
  ts : ts_state;
  tc : tc_state;
  ht : ht_state;
  ta : ta_state;
  scene : scene_state;
  dom : dom_state;
  app : app_state }.

(** What a method call leaves behind: it returned, or it threw after the
    writes recorded in the world. *)
Inductive outcome :=
| Done (w : world)
| Thrown (w : world).

Definition after (o : outcome) : world :=
  match o with Done w => w | Thrown w => w end.

Definition threw (o : outcome) : bool :=
  match o with Done _ => false | Thrown _ => true end.
(** ** Field updates

    [set_f v r] is the record [r] after the assignment [r.f = v]. *)

Definition set_background v (r : scene_state) : scene_state :=
  Scene v (fog r) (clearColor r) (clearAlpha r) (camera_position r) (camera_quaternion r) (objects r).

Definition set_fog v (r : scene_state) : scene_state :=
  Scene (background r) v (clearColor r) (clearAlpha r) (camera_position r) (camera_quaternion r) (objects r).

Definition set_clearColor v (r : scene_state) : scene_state :=
  Scene (background r) (fog r) v (clearAlpha r) (camera_position r) (camera_quaternion r) (objects r).

Definition set_clearAlpha v (r : scene_state) : scene_state :=
  Scene (background r) (fog r) (clearColor r) v (camera_position r) (camera_quaternion r) (objects r).

Definition set_camera_position v (r : scene_state) : scene_state :=
  Scene (background r) (fog r) (clearColor r) (clearAlpha r) v (camera_quaternion r) (objects r).

Definition set_camera_quaternion v (r : scene_state) : scene_state :=
  Scene (background r) (fog r) (clearColor r) (clearAlpha r) (camera_position r) v (objects r).

Definition set_objects v (r : scene_state) : scene_state :=
  Scene (background r) (fog r) (clearColor r) (clearAlpha r) (camera_position r) (camera_quaternion r) v.

Definition set_cockpit_active v (r : dom_state) : dom_state :=
  Dom v (content_overlay_hidden r) (content_title r) (content_body r) (return_button r) (return_listener r) (status_display r) (canvas_pointer_events r) (planet_info_hidden r) (controls_travel_hidden r) (fade_overlays r).

Definition set_content_overlay_hidden v (r : dom_state) : dom_state :=
  Dom (cockpit_active r) v (content_title r) (content_body r) (return_button r) (return_listener r) (status_display r) (canvas_pointer_events r) (planet_info_hidden r) (controls_travel_hidden r) (fade_overlays r).

Definition set_content_title v (r : dom_state) : dom_state :=
  Dom (cockpit_active r) (content_overlay_hidden r) v (content_body r) (return_button r) (return_listener r) (status_display r) (canvas_pointer_events r) (planet_info_hidden r) (controls_travel_hidden r) (fade_overlays r).

Definition set_content_body v (r : dom_state) : dom_state :=
  Dom (cockpit_active r) (content_overlay_hidden r) (content_title r) v (return_button r) (return_listener r) (status_display r) (canvas_pointer_events r) (planet_info_hidden r) (controls_travel_hidden r) (fade_overlays r).

Definition set_return_button v (r : dom_state) : dom_state :=
  Dom (cockpit_active r) (content_overlay_hidden r) (content_title r) (content_body r) v (return_listener r) (status_display r) (canvas_pointer_events r) (planet_info_hidden r) (controls_travel_hidden r) (fade_overlays r).

Definition set_return_listener v (r : dom_state) : dom_state :=
  Dom (cockpit_active r) (content_overlay_hidden r) (content_title r) (content_body r) (return_button r) v (status_display r) (canvas_pointer_events r) (planet_info_hidden r) (controls_travel_hidden r) (fade_overlays r).

Definition set_status_display v (r : dom_state) : dom_state :=
  Dom (cockpit_active r) (content_overlay_hidden r) (content_title r) (content_body r) (return_button r) (return_listener r) v (canvas_pointer_events r) (planet_info_hidden r) (controls_travel_hidden r) (fade_overlays r).

Definition set_canvas_pointer_events v (r : dom_state) : dom_state :=
  Dom (cockpit_active r) (content_overlay_hidden r) (content_title r) (content_body r) (return_button r) (return_listener r) (status_display r) v (planet_info_hidden r) (controls_travel_hidden r) (fade_overlays r).

Definition set_planet_info_hidden v (r : dom_state) : dom_state :=
  Dom (cockpit_active r) (content_overlay_hidden r) (content_title r) (content_body r) (return_button r) (return_listener r) (status_display r) (canvas_pointer_events r) v (controls_travel_hidden r) (fade_overlays r).

Definition set_controls_travel_hidden v (r : dom_state) : dom_state :=
  Dom (cockpit_active r) (content_overlay_hidden r) (content_title r) (content_body r) (return_button r) (return_listener r) (status_display r) (canvas_pointer_events r) (planet_info_hidden r) v (fade_overlays r).

Definition set_fade_overlays v (r : dom_state) : dom_state :=
  Dom (cockpit_active r) (content_overlay_hidden r) (content_title r) (content_body r) (return_button r) (return_listener r) (status_display r) (canvas_pointer_events r) (planet_info_hidden r) (controls_travel_hidden r) v.

Definition set_interactions_enabled v (r : app_state) : app_state :=
  App v (animations_restarted r) (content_queries r) (app_calls r).

Definition set_animations_restarted v (r : app_state) : app_state :=
  App (interactions_enabled r) v (content_queries r) (app_calls r).

Definition set_content_queries v (r : app_state) : app_state :=
  App (interactions_enabled r) (animations_restarted r) v (app_calls r).

Definition set_app_calls v (r : app_state) : app_state :=
  App (interactions_enabled r) (animations_restarted r) (content_queries r) v.

Definition set_isTravel v (r : ts_state) : ts_state :=
  TS v (ts_currentPhase r) (ts_selectedPlanet r) (travelStartTime r) (originalState r) (phaseTimers r).

Definition set_ts_currentPhase v (r : ts_state) : ts_state :=
  TS (isTravel r) v (ts_selectedPlanet r) (travelStartTime r) (originalState r) (phaseTimers r).

Definition set_ts_selectedPlanet v (r : ts_state) : ts_state :=
  TS (isTravel r) (ts_currentPhase r) v (travelStartTime r) (originalState r) (phaseTimers r).

Definition set_travelStartTime v (r : ts_state) : ts_state :=
  TS (isTravel r) (ts_currentPhase r) (ts_selectedPlanet r) v (originalState r) (phaseTimers r).

Definition set_originalState v (r : ts_state) : ts_state :=
  TS (isTravel r) (ts_currentPhase r) (ts_selectedPlanet r) (travelStartTime r) v (phaseTimers r).

Definition set_phaseTimers v (r : ts_state) : ts_state :=
  TS (isTravel r) (ts_currentPhase r) (ts_selectedPlanet r) (travelStartTime r) (originalState r) v.

Definition set_isVisible v (r : tc_state) : tc_state :=
  TC v (tc_selectedPlanet r) (overlay_hidden r) (overlay_entered r) (buttons_disabled r) (modal_planet_name r).

Definition set_tc_selectedPlanet v (r : tc_state) : tc_state :=
  TC (isVisible r) v (overlay_hidden r) (overlay_entered r) (buttons_disabled r) (modal_planet_name r).

Definition set_overlay_hidden v (r : tc_state) : tc_state :=
  TC (isVisible r) (tc_selectedPlanet r) v (overlay_entered r) (buttons_disabled r) (modal_planet_name r).

Definition set_overlay_entered v (r : tc_state) : tc_state :=
  TC (isVisible r) (tc_selectedPlanet r) (overlay_hidden r) v (buttons_disabled r) (modal_planet_name r).

Definition set_buttons_disabled v (r : tc_state) : tc_state :=
  TC (isVisible r) (tc_selectedPlanet r) (overlay_hidden r) (overlay_entered r) v (modal_planet_name r).

Definition set_modal_planet_name v (r : tc_state) : tc_state :=
  TC (isVisible r) (tc_selectedPlanet r) (overlay_hidden r) (overlay_entered r) (buttons_disabled r) v.

Definition set_isActive v (r : ht_state) : ht_state :=
  HT v (ht_currentPhase r) (ht_selectedPlanet r) (startTime r) (warpSpeed r) (travelGroup_visible r) (stars r) (approachPlanet r) (originalSceneState r) (blackScreen_shown r) (cockpitOverlay_shown r).

Definition set_ht_currentPhase v (r : ht_state) : ht_state :=
  HT (isActive r) v (ht_selectedPlanet r) (startTime r) (warpSpeed r) (travelGroup_visible r) (stars r) (approachPlanet r) (originalSceneState r) (blackScreen_shown r) (cockpitOverlay_shown r).

Definition set_ht_selectedPlanet v (r : ht_state) : ht_state :=
  HT (isActive r) (ht_currentPhase r) v (startTime r) (warpSpeed r) (travelGroup_visible r) (stars r) (approachPlanet r) (originalSceneState r) (blackScreen_shown r) (cockpitOverlay_shown r).

Definition set_startTime v (r : ht_state) : ht_state :=
  HT (isActive r) (ht_currentPhase r) (ht_selectedPlanet r) v (warpSpeed r) (travelGroup_visible r) (stars r) (approachPlanet r) (originalSceneState r) (blackScreen_shown r) (cockpitOverlay_shown r).

Definition set_warpSpeed v (r : ht_state) : ht_state :=
  HT (isActive r) (ht_currentPhase r) (ht_selectedPlanet r) (startTime r) v (travelGroup_visible r) (stars r) (approachPlanet r) (originalSceneState r) (blackScreen_shown r) (cockpitOverlay_shown r).

Definition set_travelGroup_visible v (r : ht_state) : ht_state :=
  HT (isActive r) (ht_currentPhase r) (ht_selectedPlanet r) (startTime r) (warpSpeed r) v (stars r) (approachPlanet r) (originalSceneState r) (blackScreen_shown r) (cockpitOverlay_shown r).

Definition set_stars v (r : ht_state) : ht_state :=
  HT (isActive r) (ht_currentPhase r) (ht_selectedPlanet r) (startTime r) (warpSpeed r) (travelGroup_visible r) v (approachPlanet r) (originalSceneState r) (blackScreen_shown r) (cockpitOverlay_shown r).

Definition set_approachPlanet v (r : ht_state) : ht_state :=
  HT (isActive r) (ht_currentPhase r) (ht_selectedPlanet r) (startTime r) (warpSpeed r) (travelGroup_visible r) (stars r) v (originalSceneState r) (blackScreen_shown r) (cockpitOverlay_shown r).

Definition set_originalSceneState v (r : ht_state) : ht_state :=
  HT (isActive r) (ht_currentPhase r) (ht_selectedPlanet r) (startTime r) (warpSpeed r) (travelGroup_visible r) (stars r) (approachPlanet r) v (blackScreen_shown r) (cockpitOverlay_shown r).

Definition set_blackScreen_shown v (r : ht_state) : ht_state :=
  HT (isActive r) (ht_currentPhase r) (ht_selectedPlanet r) (startTime r) (warpSpeed r) (travelGroup_visible r) (stars r) (approachPlanet r) (originalSceneState r) v (cockpitOverlay_shown r).

Definition set_cockpitOverlay_shown v (r : ht_state) : ht_state :=
  HT (isActive r) (ht_currentPhase r) (ht_selectedPlanet r) (startTime r) (warpSpeed r) (travelGroup_visible r) (stars r) (approachPlanet r) (originalSceneState r) (blackScreen_shown r) v.

Definition set_isPlaying v (r : ta_state) : ta_state :=
  TA v (currentAudio r) (audioContext r) (audioFiles r).

Definition set_currentAudio v (r : ta_state) : ta_state :=
  TA (isPlaying r) v (audioContext r) (audioFiles r).

Definition set_audioContext v (r : ta_state) : ta_state :=
  TA (isPlaying r) (currentAudio r) v (audioFiles r).

Definition set_audioFiles v (r : ta_state) : ta_state :=
  TA (isPlaying r) (currentAudio r) (audioContext r) v.

Definition set_clock v (r : world) : world :=
  World v (timers r) (next_timer r) (ts r) (tc r) (ht r) (ta r) (scene r) (dom r) (app r).

Definition set_timers v (r : world) : world :=
  World (clock r) v (next_timer r) (ts r) (tc r) (ht r) (ta r) (scene r) (dom r) (app r).

Definition set_next_timer v (r : world) : world :=
  World (clock r) (timers r) v (ts r) (tc r) (ht r) (ta r) (scene r) (dom r) (app r).

Definition set_ts v (r : world) : world :=
  World (clock r) (timers r) (next_timer r) v (tc r) (ht r) (ta r) (scene r) (dom r) (app r).

Definition set_tc v (r : world) : world :=
  World (clock r) (timers r) (next_timer r) (ts r) v (ht r) (ta r) (scene r) (dom r) (app r).

Definition set_ht v (r : world) : world :=
  World (clock r) (timers r) (next_timer r) (ts r) (tc r) v (ta r) (scene r) (dom r) (app r).

Definition set_ta v (r : world) : world :=
  World (clock r) (timers r) (next_timer r) (ts r) (tc r) (ht r) v (scene r) (dom r) (app r).

Definition set_scene v (r : world) : world :=
  World (clock r) (timers r) (next_timer r) (ts r) (tc r) (ht r) (ta r) v (dom r) (app r).

Definition set_dom v (r : world) : world :=
  World (clock r) (timers r) (next_timer r) (ts r) (tc r) (ht r) (ta r) (scene r) v (app r).

Definition set_app v (r : world) : world :=
  World (clock r) (timers r) (next_timer r) (ts r) (tc r) (ht r) (ta r) (scene r) (dom r) v.

Definition set_obj_name v (r : scene_object) : scene_object :=
  SceneObject v (obj_type r) (obj_visible r) (wasVisibleBeforeTravel r).

Definition set_obj_type v (r : scene_object) : scene_object :=
  SceneObject (obj_name r) v (obj_visible r) (wasVisibleBeforeTravel r).

Definition set_obj_visible v (r : scene_object) : scene_object :=
  SceneObject (obj_name r) (obj_type r) v (wasVisibleBeforeTravel r).

Definition set_wasVisibleBeforeTravel v (r : scene_object) : scene_object :=
  SceneObject (obj_name r) (obj_type r) (obj_visible r) v.

Definition set_url v (r : audio_data) : audio_data :=
  AudioData v (duration r) (loaded r) (audioBuffer r) (audioElement r).

Definition set_duration v (r : audio_data) : audio_data :=
  AudioData (url r) v (loaded r) (audioBuffer r) (audioElement r).

Definition set_loaded v (r : audio_data) : audio_data :=
  AudioData (url r) (duration r) v (audioBuffer r) (audioElement r).

Definition set_audioBuffer v (r : audio_data) : audio_data :=
  AudioData (url r) (duration r) (loaded r) v (audioElement r).

Definition set_audioElement v (r : audio_data) : audio_data :=
  AudioData (url r) (duration r) (loaded r) (audioBuffer r) v.


Definition on_ts (f : ts_state -> ts_state) (w : world) : world := set_ts (f (ts w)) w.
Definition on_tc (f : tc_state -> tc_state) (w : world) : world := set_tc (f (tc w)) w.
Definition on_ht (f : ht_state -> ht_state) (w : world) : world := set_ht (f (ht w)) w.
Definition on_ta (f : ta_state -> ta_state) (w : world) : world := set_ta (f (ta w)) w.
Definition on_scene (f : scene_state -> scene_state) (w : world) : world := set_scene (f (scene w)) w.
Definition on_dom (f : dom_state -> dom_state) (w : world) : world := set_dom (f (dom w)) w.
Definition on_app (f : app_state -> app_state) (w : world) : world := set_app (f (app w)) w.

(** ** The browser's timers *)

(** The delay as the browser takes it: a 32-bit signed integer (the
    [long] of [setTimeout]'s interface), so a delay outside that range wraps
    around modulo 2^32. *)
Definition to_long (delay : Z) : Z :=
  if (-2147483648 <=? delay)%Z && (delay <=? 2147483647)%Z then delay
  else (delay + 2147483648) mod 4294967296 - 2147483648.

(** [setTimeout(cb, delay)]: the timer is appended to the queue and its id
    returned.  The delay is taken as a [long], and a negative one counts
    as 0. *)
Definition setTimeout (cb : callback) (delay : Z) (w : world) : nat * world :=
  let id := next_timer w in
  (id, set_next_timer (S id)
         (set_timers (timers w ++ [Timer id (clock w + Z.max 0 (to_long delay)) cb]) w)).

(** [setTimeout] whose id the caller drops. *)
Definition setTimeout_ (cb : callback) (delay : Z) (w : world) : world :=
  snd (setTimeout cb delay w).

Definition clearTimeout (id : nat) (w : world) : world :=
  set_timers (filter (fun t => timer_id t ≠ id) (timers w)) w.

Definition pending (id : nat) (w : world) : Prop :=
  ∃ t, t ∈ timers w ∧ timer_id t = id.

Definition pending_action (cb : callback) (w : world) : Prop :=
  ∃ t, t ∈ timers w ∧ action t = cb.

(** ** The application host *)

(** Modelled from the spec: the application class ([spaceCVApp]) is not among
    the sources.  Section 4.1 says the return path "re-enables interaction";
    [enableInteractions] and [restartAnimations] are taken to set a flag
    each, and the content getters to have no effect on the travel state. *)
Definition enableInteractions (w : world) : world :=
  on_app (set_interactions_enabled true) w.

Definition restartAnimations (w : world) : world :=
  on_app (set_animations_restarted true) w.

(** ** TravelConfirmation.js *)

Module TravelConfirmation.

Definition resetButtonStates (w : world) : world :=
  on_tc (set_buttons_disabled false) w.

Definition updateModalContent (p : planet) (w : world) : world :=
  on_tc (set_modal_planet_name (info_name p)) w.

Definition show (p : planet) (w : world) : world :=
  if isVisible (tc w) then w
  else
    let w := on_tc (set_tc_selectedPlanet (Some p)) w in
    let w := on_tc (set_isVisible true) w in
    let w := resetButtonStates w in
    let w := updateModalContent p w in
    let w := on_tc (set_overlay_hidden false) w in
    setTimeout_ CbConfirmEntrance 50 w.

(** The callback of [show]'s timer. *)
Definition entrance (w : world) : world :=
  on_tc (set_overlay_entered true) w.

Definition hide (w : world) : world :=
  if negb (isVisible (tc w)) then w
  else
    let w := on_tc (set_isVisible false) w in
    let w := on_tc (set_overlay_entered false) w in
    let w := setTimeout_ CbConfirmHidden 300 w in
    let w := on_tc (set_tc_selectedPlanet None) w in
    resetButtonStates w.

(** The callback of [hide]'s timer. *)
Definition hidden (w : world) : world :=
  on_tc (set_overlay_hidden true) w.

Definition isModalVisible (w : world) : bool := isVisible (tc w).

End TravelConfirmation.

(** ** TravelAudio.js

    A [world] is a state in which the built-in objects that every object
    literal inherits from ([Object.prototype] and its methods) carry no
    properties of the travel code.  [addPlanetAudio] with an inherited key
    is the only call that writes such properties, and it has no result
    here. *)

Module TravelAudio.

(** What the browser does with a Web Audio playback request. *)
Inductive web_audio_env :=
| WebStarts
| WebThrowsBeforeStore     (* an audio-graph call throws before currentAudio is stored *)
| WebThrowsAtStart.        (* source.start() throws *)

(** What the browser does with a fetch-and-decode request. *)
Inductive preload_env :=
| Decoded (ms : Z)
| LoadFails.

(** [!audioData.url]: null and the empty string are falsy. *)
Definition no_url (a : audio_data) : bool :=
  match url a with
  | None => true
  | Some s => bool_decide (s = "")
  end.

Definition set_file (planetId : string) (a : audio_data) (w : world) : world :=
  on_ta (fun s => set_audioFiles (<[planetId := a]> (audioFiles s)) s) w.

Definition onAudioEnd (w : world) : world :=
  let w := on_ta (set_isPlaying false) w in
  on_ta (set_currentAudio None) w.

(** The delay that [simulateAudioDuration] hands to [setTimeout],
    [audioData ? audioData.duration : 10000]: an inherited property is a
    truthy object without [duration], and [setTimeout] takes the undefined
    delay as 0. *)
Definition simulated_duration (w : world) (planetId : string) : Z :=
  match obj_get (audioFiles (ta w)) planetId with
  | Own a => duration a
  | Inherited _ => 0
  | Missing => 10000
  end.

Definition simulateAudioDuration (planetId : string) (w : world) : world :=
  let d := simulated_duration w planetId in
  let w := on_ta (set_isPlaying true) w in
  setTimeout_ CbAudioEnd d w.

(** [stop]: an exception of the audio backend is caught inside. *)
Definition stop (w : world) : world :=
  if negb (isPlaying (ta w)) || negb (bool_decide (is_Some (currentAudio (ta w))))
  then w
  else onAudioEnd w.

Definition isAudioPlaying (w : world) : bool := isPlaying (ta w).

Definition playWithWebAudio (env : web_audio_env) (w : world) : outcome :=
  match env with
  | WebThrowsBeforeStore => Thrown w
  | WebThrowsAtStart => Thrown (on_ta (set_currentAudio (Some WebAudioSource)) w)
  | WebStarts => Done (on_ta (set_currentAudio (Some WebAudioSource)) w)
  end.

(** [playWithHTML5Audio] up to the call of [audio.play()]; a rejection of
    the promise it returns is delivered later, to [play_rejected]. *)
Definition playWithHTML5Audio (w : world) : outcome :=
  Done (on_ta (set_currentAudio (Some Html5Element)) w).

(** The handler of a rejected [audio.play()]. *)
Definition play_rejected (w : world) : world := onAudioEnd w.

(** The 'ended' listener of either backend. *)
Definition ended (w : world) : world := onAudioEnd w.

Definition playAudio (env : web_audio_env) (planetId : string) (w : world) : world :=
  let w := on_ta (set_isPlaying true) w in
  let attempt :=
    match obj_get (audioFiles (ta w)) planetId with
    | Own a =>
        if audioContext (ta w) && audioBuffer a then playWithWebAudio env w
        else if audioElement a then playWithHTML5Audio w
        else Thrown w                       (* 'No audio source available' *)
    | Inherited _ => Thrown w               (* neither buffer nor element *)
    | Missing => Thrown w                   (* property read on undefined *)
    end in
  match attempt with
  | Done w => w
  | Thrown w => simulateAudioDuration planetId w
  end.

(** [preloadAudio] with the outcome of the request; without an audio
    context it only attaches listeners to a new audio element. *)
Definition preloadAudio (env : preload_env) (planetId : string) (w : world) : world :=
  match obj_get (audioFiles (ta w)) planetId with
  | Own a =>
      if no_url a || loaded a then w
      else if audioContext (ta w) then
        match env with
        | Decoded ms =>
            set_file planetId (set_loaded true (set_duration ms (set_audioBuffer true a))) w
        | LoadFails => w
        end
      else w
  | _ => w
  end.

(** The 'loadeddata' listener that [preloadAudio] attaches to the element. *)
Definition loadeddata (planetId : string) (ms : Z) (w : world) : world :=
  match obj_get (audioFiles (ta w)) planetId with
  | Own a => set_file planetId (set_audioElement true (set_loaded true (set_duration ms a))) w
  | _ => w
  end.

(** The continuation that [playVoiceOver] chains on [preloadAudio]. *)
Definition preloaded (env : web_audio_env) (planetId : string) (w : world) : world :=
  match obj_get (audioFiles (ta w)) planetId with
  | Own a => if loaded a then playAudio env planetId w
             else simulateAudioDuration planetId w
  | _ => simulateAudioDuration planetId w
  end.

(** [playVoiceOver], up to its return.  When the clip has a URL and is not
    loaded it only starts [preloadAudio]; the browser later runs
    [preloadAudio] and then [preloaded]. *)
Definition playVoiceOver (env : web_audio_env) (planetId : string) (w : world) : world :=
  let w := if isPlaying (ta w) then stop w else w in
  match obj_get (audioFiles (ta w)) planetId with
  | Own a =>
      if no_url a then simulateAudioDuration planetId w
      else if negb (loaded a) then w
      else playAudio env planetId w
  | Inherited _ => simulateAudioDuration planetId w
  | Missing => simulateAudioDuration planetId w
  end.

(** [addPlanetAudio], up to its return; the preload it starts settles
    later.  An unknown identifier is refused.  An inherited key passes the
    guard, and the two assignments then write [url] and [duration] onto a
    built-in object (onto [Object.prototype] itself for '__proto__'): the
    result is a state with modified built-ins, which [world] cannot
    represent, and is [None]. *)
Definition addPlanetAudio (planetId : string) (audioUrl : string) (ms : Z) (w : world)
  : option world :=
  match obj_get (audioFiles (ta w)) planetId with
  | Own a => Some (set_file planetId (set_duration ms (set_url (Some audioUrl) a)) w)
  | Inherited _ => None
  | Missing => Some w
  end.

(** [getTravelDuration]: [audioData ? audioData.duration : 10000].  [None]
    is undefined, the [duration] of an inherited built-in. *)
Definition getTravelDuration (w : world) (planetId : string) : option Z :=
  match obj_get (audioFiles (ta w)) planetId with
  | Own a => Some (duration a)
  | Inherited _ => None
  | Missing => Some 10000
  end.

End TravelAudio.

(** ** HyperspaceTravel.js *)

Module HyperspaceTravel.

(** [phaseTimings]. *)
Definition timing_hyperspace : Z := 4000.
Definition timing_approach : Z := 3000.
Definition timing_transition : Z := 500.

Definition starCount : nat := 150.

Definition updateStatus (status : string) (w : world) : world :=
  on_dom (set_status_display status) w.

Definition storeOriginalSceneState (w : world) : world :=
  on_ht (set_originalSceneState
           (SceneSnapshot (background (scene w)) (fog (scene w))
                          (Some (clearColor (scene w))) (clearAlpha (scene w)))) w.

(** [renderer.setClearColor(color, alpha)]: [Color.set] ignores a null
    colour, so the renderer then keeps the colour it has; the alpha is stored
    as given (its default of 1 stands in for undefined only). *)
Definition setClearColor (c a : option Z) (w : world) : world :=
  on_scene (set_clearAlpha a)
    (on_scene (fun s => set_clearColor (default (clearColor s) c) s) w).

Definition setupTravelScene (w : world) : world :=
  let w := on_scene (set_background (Some 0)) w in
  let w := on_scene (set_fog None) w in
  setClearColor (Some 0) (Some 1) w.

Definition showTravelInterface (w : world) : world :=
  let w := on_ht (set_blackScreen_shown true) w in
  let w := on_ht (set_cockpitOverlay_shown true) w in
  let w := on_dom (set_cockpit_active true) w in
  updateStatus "HYPERSPACE" w.

(** The test of [hideOrbitalObjects]; the objects of [scene w] are neither
    the travel group nor its children. *)
Definition orbital (o : scene_object) : bool :=
  obj_visible o
  && (bool_decide (obj_type o = "Mesh") || bool_decide (obj_type o = "Group"))
  && negb (includes (obj_name o) "Light")
  && negb (includes (obj_name o) "Camera").

Definition hide_object (o : scene_object) : scene_object :=
  if orbital o then set_obj_visible false (set_wasVisibleBeforeTravel true o) else o.

Definition hideOrbitalObjects (w : world) : world :=
  on_scene (fun s => set_objects (map hide_object (objects s)) s) w.

Definition startHyperspacePhase (w : world) : world :=
  let w := on_ht (set_ht_currentPhase "hyperspace") w in
  let w := on_ht (set_travelGroup_visible true) w in
  on_ht (fun h => set_stars (map (fun _ => true) (stars h)) h) w.

Definition startTravel (p : planet) (w : world) : world :=
  if isActive (ht w) then w
  else
    let w := on_ht (set_isActive true) w in
    let w := on_ht (set_ht_selectedPlanet (Some p)) w in
    let w := on_ht (set_ht_currentPhase "hyperspace") w in
    let w := on_ht (set_startTime (clock w)) w in
    let w := on_ht (set_warpSpeed 0) w in
    let w := storeOriginalSceneState w in
    let w := setupTravelScene w in
    let w := showTravelInterface w in
    let w := hideOrbitalObjects w in
    let w := startHyperspacePhase w in
    setTimeout_ CbHsToApproach timing_hyperspace w.

(** The object literal [colorMap] of [getPlanetColors]. *)
Definition colorMap : gmap string Z :=
  list_to_map
    [ ("work-planet", 0xE67E22); ("education-planet", 0x9B59B6);
      ("skills-planet", 0x3498DB); ("projects-planet", 0xF1C40F);
      ("community-planet", 0x2ECC71); ("contact-planet", 0xECF0F1) ].

(** [getPlanetColors(planetId).surface]: an inherited property is truthy
    and has no [surface]. *)
Definition getPlanetColors (planetId : string) : option Z :=
  match obj_get colorMap planetId with
  | Own c => Some c
  | Inherited _ => None
  | Missing => Some 0x4A90E2
  end.

Definition createApproachPlanet (w : world) : world :=
  match ht_selectedPlanet (ht w) with
  | None => w
  | Some p =>
      let w := on_ht (set_approachPlanet None) w in
      on_ht (set_approachPlanet (Some (ApproachMesh (getPlanetColors (planet_id p))))) w
  end.

Definition transitionToApproach (w : world) : world :=
  if negb (bool_decide (ht_currentPhase (ht w) = "hyperspace")) then w
  else
    let w := on_ht (set_ht_currentPhase "approach") w in
    let w := on_ht (fun h => set_stars (map (fun _ => false) (stars h)) h) w in
    let w := createApproachPlanet w in
    let w := updateStatus "APPROACHING" w in
    setTimeout_ CbHsArrive timing_approach w.

Definition arriveAtPlanet (w : world) : world :=
  if negb (bool_decide (ht_currentPhase (ht w) = "approach")) then w
  else
    let w := on_ht (set_ht_currentPhase "arrived") w in
    let w := updateStatus "ARRIVED" w in
    setTimeout_ CbHsShowContent 500 w.

Definition not_available : html := Literal "<p>Content not available</p>".

(** [getContentForPlanet]: the [switch] compares with [===].  The guard on
    [travelSystem.app] never fires, the constructor of TravelSystem reads
    the application's fields. *)
Definition getContentForPlanet (planetId : string) : html :=
  if bool_decide (planetId = "work-planet") then AppContent getWorkContent
  else if bool_decide (planetId = "education-planet") then AppContent getEducationContent
  else if bool_decide (planetId = "skills-planet") then AppContent getSkillsContent
  else if bool_decide (planetId = "projects-planet") then AppContent getProjectsContent
  else if bool_decide (planetId = "community-planet") then AppContent getCommunityContent
  else if bool_decide (planetId = "contact-planet") then AppContent getContactContent
  else if bool_decide (planetId = "portfolio-nebula") then AppContent getPortfolioContent
  else not_available.

(** The object literal [titleMap] of [getTitleForPlanet]. *)
Definition titleMap : gmap string string :=
  list_to_map
    [ ("work-planet", "Work Experience"); ("education-planet", "Education");
      ("skills-planet", "Technical Skills");
      ("projects-planet", "Accolades & Achievements");
      ("community-planet", "Community Work");
      ("contact-planet", "Contact & Connect");
      ("portfolio-nebula", "Creative Portfolio") ].

Definition fallback_title : jsval := VString "Information".

(** [titleMap[planetId] || 'Information']: every own title is a non-empty
    string and every inherited property is truthy. *)
Definition getTitleForPlanet (planetId : string) : jsval :=
  match obj_get titleMap planetId with
  | Own t => if bool_decide (t = "") then fallback_title else VString t
  | Inherited name => VBuiltin name
  | Missing => fallback_title
  end.

(** The call of [getContentForPlanet] as the application sees it. *)
Definition query_content (planetId : string) (w : world) : html * world :=
  let h := getContentForPlanet planetId in
  let w := on_app (fun a => set_content_queries (content_queries a ++ [planetId]) a) w in
  (h, match h with
      | AppContent g => on_app (fun a => set_app_calls (app_calls a ++ [g]) a) w
      | Literal _ => w
      end).

Definition updateContentModal (title : jsval) (content : html) (w : world) : world :=
  let w := on_dom (set_content_title title) w in
  let w := on_dom (set_content_body content) w in
  let w := on_dom (set_return_button true) w in
  on_dom (set_return_listener false) w.

Definition showPlanetContent (w : world) : outcome :=
  let w := on_ht (set_ht_currentPhase "content") w in
  let w := updateStatus "DATA LINK" w in
  match ht_selectedPlanet (ht w) with
  | None => Thrown w                         (* this.selectedPlanet.id *)
  | Some p =>
      let '(content, w) := query_content (planet_id p) w in
      let title := getTitleForPlanet (planet_id p) in
      let w := updateContentModal title content w in
      Done (on_dom (set_content_overlay_hidden false) w)
  end.

Definition hideTravelEffects (w : world) : world :=
  let w := on_ht (set_travelGroup_visible false) w in
  let w := on_ht (fun h => set_stars (map (fun _ => false) (stars h)) h) w in
  on_ht (set_approachPlanet None) w.

Definition hideTravelInterface (w : world) : world :=
  let w := on_ht (set_blackScreen_shown false) w in
  let w := on_ht (set_cockpitOverlay_shown false) w in
  on_dom (set_cockpit_active false) w.

Definition restoreOriginalScene (w : world) : world :=
  let o := originalSceneState (ht w) in
  let w := on_scene (set_background (snap_background o)) w in
  let w := on_scene (set_fog (snap_fog o)) w in
  setClearColor (snap_clearColor o) (snap_clearAlpha o) w.

Definition restore_object (o : scene_object) : scene_object :=
  if wasVisibleBeforeTravel o
  then set_wasVisibleBeforeTravel false (set_obj_visible true o)
  else o.

Definition restoreOrbitalObjects (w : world) : world :=
  on_scene (fun s => set_objects (map restore_object (objects s)) s) w.

Definition executeCompleteCleanup (w : world) : world :=
  let w := on_ht (set_isActive false) w in
  let w := on_ht (set_ht_currentPhase "idle") w in
  let w := on_ht (set_ht_selectedPlanet None) w in
  let w := on_ht (set_warpSpeed 0) w in
  let w := hideTravelEffects w in
  let w := hideTravelInterface w in
  let w := restoreOriginalScene w in
  let w := restoreOrbitalObjects w in
  enableInteractions w.

(** [fadeTransition(callback)]; its only caller passes
    [executeCompleteCleanup]. *)
Definition fadeTransition (w : world) : world :=
  let w := on_dom (fun d => set_fade_overlays (S (fade_overlays d)) d) w in
  setTimeout_ CbFadeBlack 500 w.

(** The three nested callbacks of [fadeTransition]. *)
Definition fade_black (w : world) : world :=
  let w := executeCompleteCleanup w in
  setTimeout_ CbFadeBack 200 w.

Definition fade_back (w : world) : world :=
  setTimeout_ CbFadeRemove 500 w.

Definition fade_remove (w : world) : world :=
  on_dom (fun d => set_fade_overlays (Nat.pred (fade_overlays d)) d) w.

Definition returnToOrbit (w : world) : world :=
  let w := on_dom (set_content_overlay_hidden true) w in
  fadeTransition w.

Definition isHyperspaceActive (w : world) : bool := isActive (ht w).

Definition getCurrentPhase (w : world) : string := ht_currentPhase (ht w).

Definition emergencyStop (w : world) : world := executeCompleteCleanup w.

Definition forceHideHyperspace (w : world) : world := hideTravelEffects w.

Definition showHyperspace (w : world) : world := startHyperspacePhase w.

Definition stop (w : world) : world :=
  if isActive (ht w) then returnToOrbit w else w.

Definition reset (w : world) : world := executeCompleteCleanup w.

Definition emergencyCleanup (w : world) : world := emergencyStop w.

(** The class has no method [start] and no field [hyperspaceGroup] (the
    group is [travelGroup]); TravelSystem uses both.  Calling the missing
    method raises a TypeError, reading the missing field gives undefined. *)
Definition start (w : world) : outcome := Thrown w.

Definition hyperspaceGroup (w : world) : option bool := None.

End HyperspaceTravel.

(** ** TravelSystem.js

    The constructor never assigns [planetApproach] or [cockpitView], and no
    other source does: every [if (this.planetApproach)] and
    [if (this.cockpitView)] branch is skipped.  [fadeIntoCockpit], the only
    writer of the phase 'cockpit', is called by no method and is not
    modelled. *)

Module TravelSystem.

(** [travelConfig.phases]. *)
Definition fadeIntoCockpit_ms : Z := 500.
Definition cockpitSetup_ms : Z := 300.
Definition hyperspace_ms : Z := 3000.
Definition hyperspaceToApproach_ms : Z := 200.
Definition planetApproach_ms : Z := 2000.
Definition approachToContent_ms : Z := 300.

(** [if (timer) clearTimeout(timer)]. *)
Definition clear_one (kv : string * nat) (w : world) : world :=
  if bool_decide (kv.2 = 0%nat) then w else clearTimeout kv.2 w.

Definition clearPhaseTimers (w : world) : world :=
  let w := foldr clear_one w (map_to_list (phaseTimers (ts w))) in
  on_ts (set_phaseTimers ∅) w.

(** [this.phaseTimers.name = setTimeout(cb, delay)]. *)
Definition set_phase_timer (name : string) (cb : callback) (delay : Z) (w : world) : world :=
  let '(id, w) := setTimeout cb delay w in
  on_ts (fun s => set_phaseTimers (<[name := id]> (phaseTimers s)) s) w.

Definition captureOriginalState (w : world) : world :=
  on_ts (set_originalState
           (CameraSnapshot (camera_position (scene w)) (camera_quaternion (scene w))
                           (0, 0, 0) (background (scene w))
                           (Some (clearColor (scene w))) (clearAlpha (scene w)))) w.

Definition disablePlanetInteractions (w : world) : world :=
  let w := on_dom (set_canvas_pointer_events false) w in
  let w := on_dom (set_planet_info_hidden true) w in
  on_dom (set_controls_travel_hidden true) w.

Definition enablePlanetInteractions (w : world) : world :=
  let w := on_dom (set_canvas_pointer_events true) w in
  let w := if negb (planet_info_hidden (dom w))
           then on_dom (set_planet_info_hidden true) w else w in
  let w := on_dom (set_controls_travel_hidden false) w in
  enableInteractions w.

Definition initiatePlanetTravel (p : planet) (w : world) : world :=
  if isTravel (ts w) then w
  else
    let w := on_ts (set_ts_selectedPlanet (Some p)) w in
    let w := on_ts (set_ts_currentPhase "confirmation") w in
    TravelConfirmation.show p w.

Definition startTravelSequence (w : world) : world :=
  match ts_selectedPlanet (ts w) with
  | None => w
  | Some p =>
      let w := on_ts (set_isTravel true) w in
      let w := on_ts (set_travelStartTime (clock w)) w in
      let w := on_ts (set_ts_currentPhase "traveling") w in
      let w := TravelConfirmation.hide w in
      let w := disablePlanetInteractions w in
      HyperspaceTravel.startTravel p w
  end.

Definition resetTravelState (w : world) : world :=
  let w := on_ts (set_isTravel false) w in
  let w := on_ts (set_ts_currentPhase "orbit") w in
  let w := on_ts (set_ts_selectedPlanet None) w in
  let w := on_ts (set_travelStartTime 0) w in
  clearPhaseTimers w.

Definition cancelTravel (w : world) : world :=
  let w := on_ts (set_ts_currentPhase "orbit") w in
  let w := on_ts (set_ts_selectedPlanet None) w in
  let w := TravelConfirmation.hide w in
  let w := clearPhaseTimers w in
  let w := resetTravelState w in
  enablePlanetInteractions w.

Definition validateHyperspaceStarted (w : world) : outcome :=
  let restarted :=
    if negb (HyperspaceTravel.isHyperspaceActive w) then HyperspaceTravel.start w
    else Done w in
  match restarted with
  | Thrown w => Thrown w
  | Done w =>
      match HyperspaceTravel.hyperspaceGroup w with
      | Some false => Done (HyperspaceTravel.showHyperspace w)
      | _ => Done w
      end
  end.

Definition startHyperspaceSequence (env : TravelAudio.web_audio_env) (w : world) : outcome :=
  if negb (bool_decide (ts_currentPhase (ts w) = "cockpit")) then Done w
  else
    let w := on_ts (set_ts_currentPhase "hyperspace") w in
    match HyperspaceTravel.start w with
    | Thrown w => Thrown w
    | Done w =>
        let w := set_phase_timer "hyperspaceValidation" CbTsHyperspaceValidation 100 w in
        match ts_selectedPlanet (ts w) with
        | None => Thrown w                   (* this.selectedPlanet.id *)
        | Some p =>
            let w := TravelAudio.playVoiceOver env (planet_id p) w in
            Done (set_phase_timer "approachTransition" CbTsApproachTransition
                                  hyperspace_ms w)
        end
    end.

Definition startPlanetApproachSequence (w : world) : world :=
  match ts_selectedPlanet (ts w) with
  | None => w
  | Some _ =>
      let w := on_ts (set_ts_currentPhase "approach") w in
      let w := HyperspaceTravel.forceHideHyperspace w in
      set_phase_timer "contentDisplay" CbTsContentDisplay planetApproach_ms w
  end.

Definition transitionToApproach (w : world) : world :=
  if negb (bool_decide (ts_currentPhase (ts w) = "hyperspace")) then w
  else
    let w := on_ts (set_ts_currentPhase "transitioning") w in
    let w := HyperspaceTravel.stop w in
    let w := set_phase_timer "hyperspaceHide" CbTsHyperspaceHide
                             hyperspaceToApproach_ms w in
    set_phase_timer "approachStart" CbTsApproachStart (hyperspaceToApproach_ms / 2) w.

Definition arriveAtPlanet (w : world) : world :=
  let w := on_ts (set_ts_currentPhase "arrived") w in
  set_phase_timer "showContent" CbTsShowContent approachToContent_ms w.

Definition not_available : html := Literal "<p>Content not available</p>".

(** The [switch] of [showPlanetContent]: title and content. *)
Definition content_for (p : planet) : jsval * html :=
  let id := planet_id p in
  if bool_decide (id = "work-planet") then (VString "Work Experience", AppContent getWorkContent)
  else if bool_decide (id = "education-planet") then (VString "Education", AppContent getEducationContent)
  else if bool_decide (id = "skills-planet") then (VString "Technical Skills", AppContent getSkillsContent)
  else if bool_decide (id = "projects-planet") then (VString "Accolades & Achievements", AppContent getProjectsContent)
  else if bool_decide (id = "community-planet") then (VString "Community Work", AppContent getCommunityContent)
  else if bool_decide (id = "contact-planet") then (VString "Contact & Connect", AppContent getContactContent)
  else (VString (info_name p), not_available).

Definition updateCockpitContentDisplay (title : jsval) (content : html) (w : world) : world :=
  let w := on_dom (set_content_title title) w in
  let w := on_dom (set_content_body content) w in
  let w := on_dom (set_return_button true) w in
  on_dom (set_return_listener true) w.

Definition showTravelContent (w : world) : world :=
  on_dom (set_content_overlay_hidden false) w.

Definition showPlanetContent (w : world) : outcome :=
  match ts_selectedPlanet (ts w) with
  | None => Thrown w                         (* this.selectedPlanet.getInfo() *)
  | Some p =>
      let w := on_ts (set_ts_currentPhase "content") w in
      let '(title, content) := content_for p in
      let w := match content with
               | AppContent g => on_app (fun a => set_app_calls (app_calls a ++ [g]) a) w
               | Literal _ => w
               end in
      let w := updateCockpitContentDisplay title content w in
      Done (showTravelContent w)
  end.

Definition executeCompleteRestoration (w : world) : world :=
  let w := on_ts (set_isTravel false) w in
  let w := on_ts (set_ts_currentPhase "orbit") w in
  let w := on_ts (set_ts_selectedPlanet None) w in
  let w := on_ts (set_travelStartTime 0) w in
  let w := HyperspaceTravel.returnToOrbit w in
  let w := enablePlanetInteractions w in
  restartAnimations w.

Definition returnToOrbit (w : world) : world :=
  let w := on_dom (set_content_overlay_hidden true) w in
  let w := clearPhaseTimers w in
  executeCompleteRestoration w.

Definition forceStopAllTravelComponents (w : world) : world :=
  let w := clearPhaseTimers w in
  let w := HyperspaceTravel.stop w in
  let w := HyperspaceTravel.emergencyCleanup w in
  TravelAudio.stop w.

Definition restoreCameraCompletely (w : world) : world :=
  let o := originalState (ts w) in
  let w := on_scene (set_camera_position (cameraPosition o)) w in
  let w := on_scene (set_camera_quaternion (cameraQuaternion o)) w in
  on_scene (fun s => set_camera_quaternion
                       (LookingAt (camera_position s) (cameraLookAt o)) s) w.

Definition restoreSceneState (w : world) : world :=
  let o := originalState (ts w) in
  let w := HyperspaceTravel.setClearColor (rendererClearColor o) (rendererClearAlpha o) w in
  on_scene (set_background (sceneBackground o)) w.

Definition getCurrentPhase (w : world) : string := ts_currentPhase (ts w).

Definition isTraveling (w : world) : bool := isTravel (ts w).

Definition emergencyReturnToOrbit (w : world) : world :=
  let w := clearPhaseTimers w in
  let w := forceStopAllTravelComponents w in
  executeCompleteRestoration w.

End TravelSystem.

(** ** The dialog's buttons (TravelConfirmation.js, continued) *)

Module ConfirmationButtons.

Definition handleCancel (w : world) : world :=
  let w := TravelSystem.cancelTravel w in
  TravelConfirmation.hide w.

Definition handleConfirm (w : world) : world :=
  match tc_selectedPlanet (tc w) with
  | None => w
  | Some _ =>
      let w := on_tc (set_buttons_disabled true) w in
      setTimeout_ CbConfirmLaunch 800 w
  end.

End ConfirmationButtons.

(** ** The event loop *)

Definition run_callback (cb : callback) (w : world) : outcome :=
  match cb with
  | CbConfirmEntrance => Done (TravelConfirmation.entrance w)
  | CbConfirmHidden => Done (TravelConfirmation.hidden w)
  | CbConfirmLaunch => Done (TravelSystem.startTravelSequence w)
  | CbHsToApproach => Done (HyperspaceTravel.transitionToApproach w)
  | CbHsArrive => Done (HyperspaceTravel.arriveAtPlanet w)
  | CbHsShowContent => HyperspaceTravel.showPlanetContent w
  | CbFadeBlack => Done (HyperspaceTravel.fade_black w)
  | CbFadeBack => Done (HyperspaceTravel.fade_back w)
  | CbFadeRemove => Done (HyperspaceTravel.fade_remove w)
  | CbAudioEnd => Done (TravelAudio.onAudioEnd w)
  | CbTsHyperspaceValidation => TravelSystem.validateHyperspaceStarted w
  | CbTsApproachTransition => Done (TravelSystem.transitionToApproach w)
  | CbTsHyperspaceHide => Done (HyperspaceTravel.forceHideHyperspace w)
  | CbTsApproachStart => Done (TravelSystem.startPlanetApproachSequence w)
  | CbTsContentDisplay => Done (TravelSystem.arriveAtPlanet w)
  | CbTsShowContent => TravelSystem.showPlanetContent w
  end.

(** [a] fires before [b]: earlier due time, or the same due time and set
    earlier. *)
Definition earlier (a b : timer) : bool :=
  (due a <? due b)%Z || ((due a =? due b)%Z && (timer_id a <=? timer_id b)%nat).

Fixpoint first_due (l : list timer) : option timer :=
  match l with
  | [] => None
  | t :: l' =>
      match first_due l' with
      | None => Some t
      | Some u => Some (if earlier t u then t else u)
      end
  end.

(** Fire one timer: it leaves the queue, the clock reaches its due time, its
    callback runs; an exception ends the callback only. *)
Definition fire (t : timer) (w : world) : world :=
  let w := clearTimeout (timer_id t) w in
  let w := set_clock (Z.max (clock w) (due t)) w in
  after (run_callback (action t) w).

(** Let the clock reach [until], firing every timer that falls due.  [None]
    when [fuel] timers were not enough. *)
Fixpoint run_until (fuel : nat) (until : Z) (w : world) : option world :=
  match first_due (timers w) with
  | None => Some (set_clock (Z.max (clock w) until) w)
  | Some t =>
      if (until <? due t)%Z then Some (set_clock (Z.max (clock w) until) w)
      else match fuel with
           | O => None
           | S fuel' => run_until fuel' until (fire t w)
           end
  end.

(** [ms] milliseconds pass. *)
Definition elapse (ms : Z) (w : world) : option world :=
  run_until 64 (clock w + ms) w.

(** The callbacks fired while the clock reaches [until], oldest first. *)
Fixpoint fired_until (fuel : nat) (until : Z) (w : world) : list callback :=
  match first_due (timers w) with
  | None => []
  | Some t =>
      if (until <? due t)%Z then []
      else match fuel with
           | O => []
           | S fuel' => action t :: fired_until fuel' until (fire t w)
           end
  end.

(** ** Construction *)

(** The [audioFiles] of a new TravelAudio: six planets, no URL yet. *)
Definition silent : audio_data := AudioData None 10000 false false false.

Definition initial_audioFiles : gmap string audio_data :=
  list_to_map
    [ ("work-planet", silent); ("education-planet", silent);
      ("skills-planet", silent); ("projects-planet", silent);
      ("community-planet", silent); ("contact-planet", silent) ].

(** The page before any travel: the overlays hidden, the canvas live. *)
Definition initial_dom : dom_state :=
  {| cockpit_active := false;
     content_overlay_hidden := true;
     content_title := VString "";
     content_body := Literal "";
     return_button := false;
     return_listener := false;
     status_display := "STANDBY";
     canvas_pointer_events := true;
     planet_info_hidden := true;
     controls_travel_hidden := false;
     fade_overlays := 0 |}.

(** [new TravelSystem(app)] at time [now] over the scene [sc]; [ctx] tells
    whether the browser offers the Web Audio API. *)
Definition construct (now : Z) (sc : scene_state) (ctx : bool) : world :=
  {| clock := now;
     timers := [];
     next_timer := 1;
     ts := {| isTravel := false;
              ts_currentPhase := "orbit";
              ts_selectedPlanet := None;
              travelStartTime := 0;
              originalState :=
                CameraSnapshot (camera_position sc) (camera_quaternion sc) (0, 0, 0)
                               (background sc) (Some (clearColor sc)) (clearAlpha sc);
              phaseTimers := ∅ |};
     tc := {| isVisible := false;
              tc_selectedPlanet := None;
              overlay_hidden := true;
              overlay_entered := false;
              buttons_disabled := false;
              modal_planet_name := "Planet Name" |};
     ht := {| isActive := false;
              ht_currentPhase := "idle";
              ht_selectedPlanet := None;
              startTime := 0;
              warpSpeed := 0;
              travelGroup_visible := false;
              stars := replicate HyperspaceTravel.starCount false;
              approachPlanet := None;
              originalSceneState := SceneSnapshot None None None None;
              blackScreen_shown := false;
              cockpitOverlay_shown := false |};
     ta := {| isPlaying := false;
              currentAudio := None;
              audioContext := ctx;
              audioFiles := initial_audioFiles |};
     scene := sc;
     dom := initial_dom;
     app := {| interactions_enabled := true;
               animations_restarted := false;
               content_queries := [];
               app_calls := [] |} |}.

(** ** Sample data *)

Definition careerPlanet : planet :=
  Planet "work-planet" "Career Planet"
         "Explore Brendan's professional journey and work experience".

Definition educationWorld : planet :=
  Planet "education-planet" "Knowledge World"
         "Explore Brendan's educational background and learning journey".

(** A scene in orbit: a dark blue background, a light clear colour, two
    planets and a light. *)
Definition orbit_scene : scene_state :=
  {| background := Some 0x000011;
     fog := Some 7;
     clearColor := 0x101020;
     clearAlpha := Some 1;
     camera_position := (0, 50, 200);
     camera_quaternion := Quaternion (0, 0, 0, 1);
     objects := [ SceneObject "CareerPlanet" "Group" true false;
                  SceneObject "EducationWorld" "Group" true false;
                  SceneObject "SunLight" "Group" true false;
                  SceneObject "Starfield" "Points" true false ] |}.

Definition orbit : world := construct 0 orbit_scene true.

(** [initiate(careerPlanet)] then [confirm()]: the travel has just begun. *)
Definition launched : world :=
  TravelSystem.startTravelSequence (TravelSystem.initiatePlanetTravel careerPlanet orbit).

(** The state [w] after [ms] milliseconds; [w] itself if the event loop ran
    out of fuel. *)
Definition later (ms : Z) (w : world) : world :=
  default w (elapse ms w).

(** ** Auxiliary notions for the statements *)

(** The timer ids a registry of phase timers holds ([0] is never an id). *)
Definition live (l : list (string * nat)) : list nat :=
  filter (fun id => id ≠ 0%nat) (map snd l).

(** The timers that [clearPhaseTimers] leaves in the queue. *)
Definition kept (m : gmap string nat) (l : list timer) : list timer :=
  filter (fun t => timer_id t ∉ live (map_to_list m)) l.

(** The coordinator is back in orbit with nothing selected and no phase
    timer registered. *)
Definition at_rest (w : world) : Prop :=
  ts_currentPhase (ts w) = "orbit"
  ∧ isTravel (ts w) = false
  ∧ ts_selectedPlanet (ts w) = None
  ∧ travelStartTime (ts w) = 0
  ∧ phaseTimers (ts w) = ∅.


(** The scene [sc'] is [sc] restored from a snapshot: background, fog and
    clear alpha are the snapshot's, null or not; the clear colour is the
    snapshot's when it holds one, and that of [sc] when it holds null (the
    snapshot of an effect that has never started a travel). *)
Definition restored (s : scene_snapshot) (sc sc' : scene_state) : Prop :=
  background sc' = snap_background s
  ∧ fog sc' = snap_fog s
  ∧ clearColor sc' = default (clearColor sc) (snap_clearColor s)
  ∧ clearAlpha sc' = snap_clearAlpha s.

Definition snapshot_of (sc : scene_state) : scene_snapshot :=
  SceneSnapshot (background sc) (fog sc) (Some (clearColor sc)) (clearAlpha sc).


(** The effect is shut down: inactive, idle, nothing selected, nothing of it
    visible. *)
Definition effect_off (w : world) : Prop :=
  isActive (ht w) = false
  ∧ ht_currentPhase (ht w) = "idle"
  ∧ ht_selectedPlanet (ht w) = None
  ∧ travelGroup_visible (ht w) = false
  ∧ Forall (fun v => v = false) (stars (ht w))
  ∧ approachPlanet (ht w) = None
  ∧ blackScreen_shown (ht w) = false
  ∧ cockpitOverlay_shown (ht w) = false.

(** ** States used below *)

(** One second into the hyperspace phase. *)
Definition in_hyperspace : world := later 1000 launched.

(** The content modal is up (7.5 s after the launch). *)
Definition at_content : world := later 7500 launched.

(** The dialog is open for the career planet. *)
Definition confirming : world := TravelSystem.initiatePlanetTravel careerPlanet orbit.

(** A simulated narration runs while the coordinator's phase reads
    'hyperspace' and the effect is in its hyperspace phase. *)
Definition narrating : world :=
  TravelAudio.playVoiceOver TravelAudio.WebStarts "work-planet"
    (on_ts (set_ts_currentPhase "hyperspace") in_hyperspace).

(** A decoded clip plays through Web Audio during the hyperspace phase. *)
Definition playing_clip : world :=
  TravelAudio.playVoiceOver TravelAudio.WebStarts "work-planet"
    (TravelAudio.preloadAudio (TravelAudio.Decoded 8000) "work-planet"
       (default in_hyperspace
          (TravelAudio.addPlanetAudio "work-planet" "./assets/audio/work-experience-vo.mp3"
             10000 in_hyperspace))).

(** The coordinator has registered a phase timer ([showContent]). *)
Definition with_phase_timer : world := TravelSystem.arriveAtPlanet in_hyperspace.

(** The validation callback finds the effect shut down: the coordinator's
    phase is 'hyperspace', the effect was reset. *)
Definition effect_lost : world :=
  HyperspaceTravel.reset (on_ts (set_ts_currentPhase "hyperspace") in_hyperspace).

(** The effect is active but its group is invisible. *)
Definition effect_invisible : world :=
  on_ht (set_travelGroup_visible false)
        (on_ts (set_ts_currentPhase "hyperspace") in_hyperspace).

(** The coordinator is about to enter hyperspace. *)
Definition in_cockpit : world :=
  on_ts (set_ts_currentPhase "cockpit") confirming.

(** A browser without Web Audio; the clip of the career planet has been
    added and its element has loaded. *)
Definition html5_ready : world :=
  TravelAudio.loadeddata "work-planet" 8000
    (default (construct 0 orbit_scene false)
       (TravelAudio.addPlanetAudio "work-planet" "./assets/audio/work-experience-vo.mp3"
          10000 (construct 0 orbit_scene false))).

(** ** The page as a transition system

    What can happen to a constructed travel system: the user picks a planet
    or presses a button of the dialog, some code calls one of the
    coordinator's entry points, or a pending timer fires. *)

Inductive event :=
| EvSelect (p : planet)          (* initiatePlanetTravel(p) *)
| EvConfirmClick                 (* the dialog's launch button *)
| EvCancelClick                  (* the dialog's cancel button, overlay or Escape *)
| EvStart                        (* startTravelSequence() *)
| EvCancel                       (* cancelTravel() *)
| EvReturn                       (* returnToOrbit() *)
| EvEmergency                    (* emergencyReturnToOrbit() *)
| EvTimer (t : timer).           (* the browser fires a timer *)

Definition handle (e : event) (w : world) : world :=
  match e with
  | EvSelect p => TravelSystem.initiatePlanetTravel p w
  | EvConfirmClick => ConfirmationButtons.handleConfirm w
  | EvCancelClick => ConfirmationButtons.handleCancel w
  | EvStart => TravelSystem.startTravelSequence w
  | EvCancel => TravelSystem.cancelTravel w
  | EvReturn => TravelSystem.returnToOrbit w
  | EvEmergency => TravelSystem.emergencyReturnToOrbit w
  | EvTimer t => fire t w
  end.

(** Only a pending timer can fire; the order among pending timers is left
    open. *)
Definition enabled (e : event) (w : world) : Prop :=
  match e with
  | EvTimer t => t ∈ timers w
  | _ => True
  end.

Inductive reachable : world -> Prop :=
| reach_construct now sc ctx : reachable (construct now sc ctx)
| reach_event e w : reachable w -> enabled e w -> reachable (handle e w).

(** The callbacks that the coordinator registers in [phaseTimers]. *)
Definition phase_callback (cb : callback) : bool :=
  match cb with
  | CbTsHyperspaceValidation | CbTsApproachTransition | CbTsHyperspaceHide
  | CbTsApproachStart | CbTsContentDisplay | CbTsShowContent => true
  | _ => false
  end.

(** What holds of every reachable state: the coordinator is in one of three
    phases, each with its own flag and selection; it has no phase timer
    registered and none of its phase callbacks is queued. *)
Record coherent (w : world) : Prop := Coherent {
  coh_phase :
    (ts_currentPhase (ts w) = "orbit" ∧ isTravel (ts w) = false
     ∧ ts_selectedPlanet (ts w) = None)
    ∨ (ts_currentPhase (ts w) = "confirmation" ∧ isTravel (ts w) = false
       ∧ is_Some (ts_selectedPlanet (ts w)))
    ∨ (ts_currentPhase (ts w) = "traveling" ∧ isTravel (ts w) = true
       ∧ is_Some (ts_selectedPlanet (ts w)));
  coh_registry : phaseTimers (ts w) = ∅;
  coh_queue : Forall (fun t => phase_callback (action t) = false) (timers w) }.

(** ** TravelAudio.js: the volume

    [audioConfig] and the arithmetic of [setVolume].  A JavaScript number is
    a rational, an infinity or NaN; [Math.min] and [Math.max] compare and
    never round. *)

Inductive number :=
| Finite (q : Q)
| PosInfinity
| NegInfinity
| NaN.

Definition math_min (a b : number) : number :=
  match a, b with
  | NaN, _ | _, NaN => NaN
  | NegInfinity, _ | _, NegInfinity => NegInfinity
  | PosInfinity, x | x, PosInfinity => x
  | Finite x, Finite y => if Qle_bool x y then Finite x else Finite y
  end.

Definition math_max (a b : number) : number :=
  match a, b with
  | NaN, _ | _, NaN => NaN
  | PosInfinity, _ | _, PosInfinity => PosInfinity
  | NegInfinity, x | x, NegInfinity => x
  | Finite x, Finite y => if Qle_bool x y then Finite y else Finite x
  end.

Record audio_config := AudioConfig {
  volume : number;
  fadeInDuration : Z;
  fadeOutDuration : Z }.

(** [audioConfig] of a new TravelAudio: volume 0.7, one second fades. *)
Definition initial_audioConfig : audio_config :=
  AudioConfig (Finite (7 # 10)) 1000 1000.

(** [setVolume(volume)], as far as [audioConfig] goes. *)
Definition setVolume (v : number) (c : audio_config) : audio_config :=
  AudioConfig (math_max (Finite 0) (math_min (Finite 1) v))
              (fadeInDuration c) (fadeOutDuration c).

Definition getVolume (c : audio_config) : number := volume c.

(** A volume between 0 and 1. *)
Definition in_range (v : number) : Prop :=
  match v with
  | Finite q => (0 <= q)%Q ∧ (q <= 1)%Q
  | _ => False
  end.

(** Two numbers with the same value. *)
Definition same_number (a b : number) : Prop :=
  match a, b with
  | Finite x, Finite y => (x == y)%Q
  | PosInfinity, PosInfinity | NegInfinity, NegInfinity | NaN, NaN => True
  | _, _ => False
  end.

(** ** The effect in reachable states *)

(** Nothing of the effect is on screen. *)
Definition effect_hidden (w : world) : Prop :=
  travelGroup_visible (ht w) = false
  ∧ Forall (fun v => v = false) (stars (ht w))
  ∧ approachPlanet (ht w) = None
  ∧ blackScreen_shown (ht w) = false
  ∧ cockpitOverlay_shown (ht w) = false
  ∧ cockpit_active (dom w) = false.

(** What holds of the effect in every reachable state: while inactive it is
    hidden, has no planet, and is in phase 'idle' or 'content'; while active
    it has a planet and is in one of its four travel phases. *)
Definition effect_ok (w : world) : Prop :=
  if isActive (ht w)
  then is_Some (ht_selectedPlanet (ht w))
       ∧ ht_currentPhase (ht w) ∈ ["hyperspace"; "approach"; "arrived"; "content"]
  else effect_hidden w
       ∧ ht_selectedPlanet (ht w) = None
       ∧ ht_currentPhase (ht w) ∈ ["idle"; "content"].

(** * Properties *)

Create HintDb travel.

#[local] Hint Unfold
  TravelSystem.cancelTravel TravelSystem.resetTravelState
  TravelSystem.returnToOrbit TravelSystem.emergencyReturnToOrbit
  TravelSystem.forceStopAllTravelComponents
  TravelSystem.executeCompleteRestoration : travel.

(** ** The delay of a timer *)

Lemma to_long_in_range (d : Z) :
  -2147483648 <= d <= 2147483647 -> to_long d = d.
Proof.
  intros [Hl Hu]. unfold to_long.
  apply Z.leb_le in Hl. apply Z.leb_le in Hu. by rewrite Hl, Hu.
Qed.

(** A delay of more than 2^31 - 1 ms (some 24.8 days) wraps to a negative
    one, and the timer is due at once. *)
Lemma to_long_overflow (d : Z) :
  2147483647 < d < 4294967296 -> Z.max 0 (to_long d) = 0.
Proof.
  intros [Hl Hu]. unfold to_long.
  replace (d <=? 2147483647)%Z with false by (symmetry; apply Z.leb_gt; lia).
  rewrite andb_false_r.
  assert ((d + 2147483648) mod 4294967296 = d + 2147483648 - 4294967296) as ->
    by (symmetry; apply (Z.mod_unique _ _ 1); lia).
  lia.
Qed.

(** ** Lists and records *)

Lemma filter_all {A} (P : A -> Prop) `{!forall x, Decision (P x)} (l : list A) :
  (forall x, P x) -> filter P l = l.
Proof.
  intros HP. induction l as [|x l IH]; [done|].
  rewrite filter_cons_True by done. by rewrite IH.
Qed.

Lemma map_const_false_idem (l : list bool) :
  map (fun _ => false) (map (fun _ : bool => false) l) = map (fun _ => false) l.
Proof. induction l; cbn; congruence. Qed.

Lemma restore_object_idem o :
  HyperspaceTravel.restore_object (HyperspaceTravel.restore_object o)
  = HyperspaceTravel.restore_object o.
Proof. destruct o as [n t v []]; reflexivity. Qed.

Lemma map_restore_object_idem l :
  map HyperspaceTravel.restore_object (map HyperspaceTravel.restore_object l)
  = map HyperspaceTravel.restore_object l.
Proof. induction l; cbn; [done|]. by rewrite restore_object_idem, IHl. Qed.

Lemma set_timers_id w : set_timers (timers w) w = w.
Proof. by destruct w. Qed.

Lemma timers_set_timers x w : timers (set_timers x w) = x.
Proof. by destruct w. Qed.

Lemma set_timers_set_timers x y w : set_timers x (set_timers y w) = set_timers x w.
Proof. by destruct w. Qed.

(** ** clearPhaseTimers in closed form *)

Lemma foldr_clear_one (l : list (string * nat)) (w : world) :
  foldr TravelSystem.clear_one w l =
  set_timers (filter (fun t => timer_id t ∉ live l) (timers w)) w.
Proof.
  induction l as [|[k id] l IH].
  - change (foldr TravelSystem.clear_one w []) with w.
    rewrite filter_all; [by rewrite set_timers_id|].
    intros t. change (live []) with (@nil nat). apply not_elem_of_nil.
  - change (foldr TravelSystem.clear_one w ((k, id) :: l))
      with (TravelSystem.clear_one (k, id) (foldr TravelSystem.clear_one w l)).
    rewrite IH. unfold TravelSystem.clear_one, clearTimeout, live.
    change ((k, id).2) with id. change (map snd ((k, id) :: l)) with (id :: map snd l).
    rewrite timers_set_timers, set_timers_set_timers.
    case_bool_decide as Hid.
    + rewrite filter_cons_False by (intros H; by apply H). done.
    + rewrite filter_cons_True by done. f_equal.
      rewrite list_filter_filter. apply list_filter_iff.
      intros t. rewrite not_elem_of_cons. tauto.
Qed.

Lemma clearPhaseTimers_eq w :
  TravelSystem.clearPhaseTimers w =
  set_timers (kept (phaseTimers (ts w)) (timers w)) (on_ts (set_phaseTimers ∅) w).
Proof.
  unfold TravelSystem.clearPhaseTimers. rewrite foldr_clear_one. by destruct w.
Qed.

Lemma kept_empty l : kept ∅ l = l.
Proof.
  unfold kept. rewrite map_to_list_empty. apply filter_all.
  intros t. apply not_elem_of_nil.
Qed.


Lemma live_elem (m : gmap string nat) (name : string) (id : nat) :
  m !! name = Some id -> id ≠ 0%nat -> id ∈ live (map_to_list m).
Proof.
  intros Hm Hid. unfold live. apply list_elem_of_filter. split; [done|].
  apply list_elem_of_fmap. exists (name, id). split; [done|].
  by apply elem_of_map_to_list.
Qed.

Lemma kept_not_registered (m : gmap string nat) (l : list timer) name id t :
  m !! name = Some id -> id ≠ 0%nat -> t ∈ kept m l -> timer_id t ≠ id.
Proof.
  intros Hm Hid Ht. unfold kept in Ht. apply list_elem_of_filter in Ht as [Hn _].
  intros Heq. apply Hn. rewrite Heq. by eapply live_elem.
Qed.

(** ** Tactics *)

(** Name every field of a world, so that the booleans a method branches on
    can be split before the method is evaluated. *)
Ltac open_world w :=
  destruct w as
    [c q n [trav tphase tsel tstart torig tpt] [vis csel ohid oent bdis mname]
       [act hphase hsel hstart warp gvis strs appr snap bs co]
       [playing cur ctx files] [bg fg cc ca cp cq objs]
       [dca doh dti dbo drb drl dsd dpe dpi dct dfo] [aie aar acq acl]].

Ltac evaluate :=
  cbv -[kept live empty gmap_empty Z.add Z.max Z.div Datatypes.app map pending
        HyperspaceTravel.restore_object HyperspaceTravel.hide_object].

Ltac closed_forms :=
  autounfold with travel; cbv zeta; rewrite ?clearPhaseTimers_eq.

Lemma Forall_map_false (l : list bool) : Forall (fun v => v = false) (map (fun _ => false) l).
Proof. induction l; cbn; constructor; auto. Qed.

(** ** What the three return paths leave behind *)


Lemma cancelTravel_at_rest w : at_rest (TravelSystem.cancelTravel w).
Proof.
  closed_forms. open_world w. destruct vis, dpi; evaluate; repeat split.
Qed.




Lemma executeCompleteCleanup_restored w :
  restored (originalSceneState (ht w)) (scene w)
           (scene (HyperspaceTravel.executeCompleteCleanup w)).
Proof. open_world w. evaluate. repeat split. Qed.

Lemma executeCompleteCleanup_effect_off w :
  effect_off (HyperspaceTravel.executeCompleteCleanup w).
Proof.
  open_world w. unfold effect_off. evaluate.
  repeat split. apply Forall_map_false.
Qed.

Lemma emergencyReturnToOrbit_restores w :
  restored (originalSceneState (ht w)) (scene w)
           (scene (TravelSystem.emergencyReturnToOrbit w))
  ∧ effect_off (TravelSystem.emergencyReturnToOrbit w).
Proof.
  closed_forms. open_world w. unfold effect_off.
  destruct act, playing, cur, dpi; evaluate; repeat split; apply Forall_map_false.
Qed.


Lemma cancelTravel_frame w :
  scene (TravelSystem.cancelTravel w) = scene w
  ∧ ht (TravelSystem.cancelTravel w) = ht w
  ∧ ta (TravelSystem.cancelTravel w) = ta w.
Proof.
  closed_forms. open_world w. destruct vis, dpi; evaluate; repeat split.
Qed.


(** ** Registered timers leave the queue *)

Lemma not_pending_kept_app (m : gmap string nat) name id q extra c n s1 s2 s3 s4 s5 s6 s7 :
  m !! name = Some id -> id ≠ 0%nat ->
  Forall (fun t => timer_id t ≠ id) extra ->
  ¬ pending id (World c (kept m q ++ extra) n s1 s2 s3 s4 s5 s6 s7).
Proof.
  intros Hm Hid Hextra [t [Ht Heq]]. cbn in Ht.
  apply elem_of_app in Ht as [Ht|Ht].
  - by eapply kept_not_registered.
  - rewrite Forall_forall in Hextra. by apply (Hextra t).
Qed.

Ltac fresh_ids :=
  repeat constructor; cbn; lia.

Lemma cancelTravel_clears w name id :
  phaseTimers (ts w) !! name = Some id -> id ≠ 0%nat -> (id < next_timer w)%nat ->
  ¬ pending id (TravelSystem.cancelTravel w).
Proof.
  intros Hm Hid Hn. closed_forms. open_world w. cbn in Hm, Hn.
  destruct vis, dpi; evaluate; rewrite ?kept_empty.
  all: try (rewrite <- (app_nil_r (kept tpt _))).
  all: eapply not_pending_kept_app; eauto; fresh_ids.
Qed.

Lemma returnToOrbit_clears w name id :
  phaseTimers (ts w) !! name = Some id -> id ≠ 0%nat -> (id < next_timer w)%nat ->
  ¬ pending id (TravelSystem.returnToOrbit w).
Proof.
  intros Hm Hid Hn. closed_forms. open_world w. cbn in Hm, Hn.
  destruct dpi; evaluate; rewrite ?kept_empty.
  all: eapply not_pending_kept_app; eauto; fresh_ids.
Qed.

Lemma emergencyReturnToOrbit_clears w name id :
  phaseTimers (ts w) !! name = Some id -> id ≠ 0%nat -> (id < next_timer w)%nat ->
  ¬ pending id (TravelSystem.emergencyReturnToOrbit w).
Proof.
  intros Hm Hid Hn. closed_forms. open_world w. cbn in Hm, Hn.
  destruct act, playing, cur, dpi; evaluate; rewrite ?kept_empty, <- ?app_assoc.
  all: eapply not_pending_kept_app; eauto; fresh_ids.
Qed.

(** ** The effect's guarded callbacks *)

Lemma transitionToApproach_guard w :
  ht_currentPhase (ht w) ≠ "hyperspace" -> HyperspaceTravel.transitionToApproach w = w.
Proof.
  intros H. unfold HyperspaceTravel.transitionToApproach.
  by rewrite bool_decide_eq_false_2.
Qed.

Lemma arriveAtPlanet_guard w :
  ht_currentPhase (ht w) ≠ "approach" -> HyperspaceTravel.arriveAtPlanet w = w.
Proof.
  intros H. unfold HyperspaceTravel.arriveAtPlanet.
  by rewrite bool_decide_eq_false_2.
Qed.

(** ** Audio *)

Lemma cancelTravel_keeps_audio w :
  TravelAudio.isAudioPlaying (TravelSystem.cancelTravel w) = TravelAudio.isAudioPlaying w.
Proof.
  unfold TravelAudio.isAudioPlaying.
  by destruct (cancelTravel_frame w) as (_ & _ & ->).
Qed.

Lemma emergencyReturnToOrbit_stops_playback w :
  is_Some (currentAudio (ta w)) ->
  TravelAudio.isAudioPlaying (TravelSystem.emergencyReturnToOrbit w) = false.
Proof.
  intros [h Hh]. closed_forms. open_world w. cbn in Hh. subst cur.
  destruct act, playing, dpi; evaluate; reflexivity.
Qed.

Lemma stop_keeps_simulated_session w :
  currentAudio (ta w) = None -> TravelAudio.stop w = w.
Proof.
  intros H. unfold TravelAudio.stop. rewrite H.
  by rewrite orb_true_r.
Qed.

(** Without a URL the narration is simulated: the session is marked as
    playing and [onAudioEnd] is queued after the configured duration, as
    [setTimeout] takes it. *)
Lemma playVoiceOver_without_url env planetId a w :
  isPlaying (ta w) = false ->
  audioFiles (ta w) !! planetId = Some a -> url a = None ->
  let w' := TravelAudio.playVoiceOver env planetId w in
  isPlaying (ta w') = true
  ∧ timers w'
    = (timers w
       ++ [Timer (next_timer w) (clock w + Z.max 0 (to_long (duration a))) CbAudioEnd])%list
  ∧ isPlaying (ta (after (run_callback CbAudioEnd w'))) = false.
Proof.
  intros Hp Hf Hu. unfold TravelAudio.playVoiceOver. rewrite Hp.
  unfold obj_get. rewrite Hf. unfold TravelAudio.no_url. rewrite Hu.
  unfold TravelAudio.simulateAudioDuration, TravelAudio.simulated_duration, obj_get.
  rewrite Hf. open_world w. repeat split.
Qed.

(** ** Content lookup *)

Lemma getContentForPlanet_unknown planetId :
  planetId ∉ [ "work-planet"; "education-planet"; "skills-planet"; "projects-planet";
               "community-planet"; "contact-planet"; "portfolio-nebula" ] ->
  HyperspaceTravel.getContentForPlanet planetId = HyperspaceTravel.not_available.
Proof.
  intros H. unfold HyperspaceTravel.getContentForPlanet.
  repeat (rewrite bool_decide_eq_false_2; [|intros ->; apply H; set_solver]).
  reflexivity.
Qed.

Lemma getTitleForPlanet_unknown planetId :
  planetId ∉ [ "work-planet"; "education-planet"; "skills-planet"; "projects-planet";
               "community-planet"; "contact-planet"; "portfolio-nebula" ] ->
  planetId ∉ object_prototype_keys ->
  HyperspaceTravel.getTitleForPlanet planetId = HyperspaceTravel.fallback_title.
Proof.
  intros Hk Hp. unfold HyperspaceTravel.getTitleForPlanet, obj_get.
  replace (HyperspaceTravel.titleMap !! planetId) with (@None string).
  - by rewrite bool_decide_eq_false_2.
  - symmetry. apply not_elem_of_list_to_map_1. exact Hk.
Qed.

(** ** The sample states are what the event loop computes *)

Example in_hyperspace_reached : elapse 1000 launched = Some in_hyperspace.
Proof. vm_compute. reflexivity. Qed.

Example at_content_reached : elapse 7500 launched = Some at_content.
Proof. vm_compute. reflexivity. Qed.

Example launched_timers :
  timers launched
  = [Timer 1 50 CbConfirmEntrance; Timer 2 300 CbConfirmHidden; Timer 3 4000 CbHsToApproach].
Proof. vm_compute. reflexivity. Qed.

(** ** Reachable states *)

Lemma Forall_filtered {A} (P Q : A -> Prop) `{!forall x, Decision (Q x)} (l : list A) :
  Forall P l -> Forall P (filter Q l).
Proof.
  rewrite !Forall_forall. intros Hall x Hx.
  apply list_elem_of_filter in Hx as [_ Hx]. by apply Hall.
Qed.

Lemma Forall_kept (P : timer -> Prop) m l : Forall P l -> Forall P (kept m l).
Proof. unfold kept. apply Forall_filtered. Qed.

Lemma Forall_cleared (P : timer -> Prop) id l :
  Forall P l -> Forall P (filter (fun t => timer_id t ≠ id) l).
Proof. apply Forall_filtered. Qed.

Ltac project :=
  cbv [timers ts isTravel ts_currentPhase ts_selectedPlanet phaseTimers].

Ltac queue :=
  project;
  repeat match goal with
         | |- Forall _ (kept _ _) => apply Forall_kept
         | |- Forall _ (filter _ _) => apply Forall_filtered
         | |- Forall _ (_ ++ _) => apply Forall_app_2
         | |- Forall _ (_ :: _) => apply List.Forall_cons; [reflexivity|]
         | |- Forall _ [] => apply List.Forall_nil
         | |- Forall _ _ => assumption
         end.

Lemma construct_coherent now sc ctx : coherent (construct now sc ctx).
Proof.
  split.
  - left. repeat split.
  - reflexivity.
  - constructor.
Qed.

Lemma initiatePlanetTravel_coherent p w :
  coherent w -> coherent (TravelSystem.initiatePlanetTravel p w).
Proof.
  intros [Hp Hr Hq]. open_world w. cbn in Hp, Hr, Hq.
  destruct trav; [by split|].
  destruct vis; evaluate;
    (split; [right; left; repeat split; eauto | done | queue]).
Qed.

Ltac phase :=
  project;
  first [ left; by repeat split
        | right; left; repeat split; by eauto
        | right; right; repeat split; by eauto ].

Ltac coherence := split; [phase | reflexivity | queue].

Ltac unchanged :=
  split; [project; assumption | project; first [assumption | reflexivity] | queue].

Lemma startTravelSequence_coherent w :
  coherent w -> coherent (TravelSystem.startTravelSequence w).
Proof.
  intros [Hp Hr Hq]. open_world w. cbn in Hp, Hr, Hq. subst tpt.
  destruct tsel as [p|]; [|by split].
  destruct vis, act; evaluate; coherence.
Qed.

Lemma cancelTravel_coherent w : coherent w -> coherent (TravelSystem.cancelTravel w).
Proof.
  intros [Hp Hr Hq]. closed_forms. open_world w. cbn in Hp, Hr, Hq.
  destruct vis, dpi; evaluate; coherence.
Qed.

Lemma returnToOrbit_coherent w : coherent w -> coherent (TravelSystem.returnToOrbit w).
Proof.
  intros [Hp Hr Hq]. closed_forms. open_world w. cbn in Hp, Hr, Hq.
  destruct dpi; evaluate; coherence.
Qed.

Lemma emergencyReturnToOrbit_coherent w :
  coherent w -> coherent (TravelSystem.emergencyReturnToOrbit w).
Proof.
  intros [Hp Hr Hq]. closed_forms. open_world w. cbn in Hp, Hr, Hq.
  destruct act, playing, cur, dpi; evaluate; coherence.
Qed.

Lemma handleConfirm_coherent w :
  coherent w -> coherent (ConfirmationButtons.handleConfirm w).
Proof.
  intros [Hp Hr Hq]. open_world w. cbn in Hp, Hr, Hq. subst tpt.
  destruct csel; evaluate; unchanged.
Qed.

Lemma hide_coherent w : coherent w -> coherent (TravelConfirmation.hide w).
Proof.
  intros [Hp Hr Hq]. open_world w. cbn in Hp, Hr, Hq. subst tpt.
  destruct vis; evaluate; unchanged.
Qed.

Lemma handleCancel_coherent w :
  coherent w -> coherent (ConfirmationButtons.handleCancel w).
Proof.
  intros H. apply hide_coherent, cancelTravel_coherent, H.
Qed.

Lemma clearTimeout_coherent id w : coherent w -> coherent (clearTimeout id w).
Proof.
  intros [Hp Hr Hq]. split; [by destruct w | by destruct w |].
  unfold clearTimeout. rewrite timers_set_timers. by apply Forall_filtered.
Qed.

Lemma set_clock_coherent k w : coherent w -> coherent (set_clock k w).
Proof. intros [Hp Hr Hq]. by destruct w. Qed.

Lemma transitionToApproach_coherent w :
  coherent w -> coherent (HyperspaceTravel.transitionToApproach w).
Proof.
  intros H. unfold HyperspaceTravel.transitionToApproach.
  case_bool_decide; [|exact H].
  destruct H as [Hp Hr Hq]. open_world w. cbn in Hp, Hr, Hq. subst tpt.
  destruct hsel; cbv -[Z.add Z.max Datatypes.app map HyperspaceTravel.getPlanetColors];
    unchanged.
Qed.

Lemma arriveAtPlanet_coherent w :
  coherent w -> coherent (HyperspaceTravel.arriveAtPlanet w).
Proof.
  intros H. unfold HyperspaceTravel.arriveAtPlanet.
  case_bool_decide; [|exact H].
  destruct H as [Hp Hr Hq]. open_world w. cbn in Hp, Hr, Hq. subst tpt.
  evaluate. unchanged.
Qed.

Lemma showPlanetContent_coherent w :
  coherent w -> coherent (after (HyperspaceTravel.showPlanetContent w)).
Proof.
  intros [Hp Hr Hq]. open_world w. cbn in Hp, Hr, Hq. subst tpt.
  destruct hsel as [[pid pname pdesc]|];
    cbv -[Z.add Z.max Datatypes.app map HyperspaceTravel.getContentForPlanet
          HyperspaceTravel.getTitleForPlanet];
    [destruct (HyperspaceTravel.getContentForPlanet pid)|]; unchanged.
Qed.

Lemma run_callback_coherent cb w :
  phase_callback cb = false -> coherent w -> coherent (after (run_callback cb w)).
Proof.
  intros Hlive H. destruct cb; try discriminate Hlive; clear Hlive;
    cbn [run_callback after].
  - (* CbConfirmEntrance *)
    destruct H as [Hp Hr Hq]. open_world w. cbn in Hp, Hr, Hq. evaluate. unchanged.
  - (* CbConfirmHidden *)
    destruct H as [Hp Hr Hq]. open_world w. cbn in Hp, Hr, Hq. evaluate. unchanged.
  - (* CbConfirmLaunch *) by apply startTravelSequence_coherent.
  - (* CbHsToApproach *) by apply transitionToApproach_coherent.
  - (* CbHsArrive *) by apply arriveAtPlanet_coherent.
  - (* CbHsShowContent *) by apply showPlanetContent_coherent.
  - (* CbFadeBlack *)
    destruct H as [Hp Hr Hq]. open_world w. cbn in Hp, Hr, Hq. evaluate. unchanged.
  - (* CbFadeBack *)
    destruct H as [Hp Hr Hq]. open_world w. cbn in Hp, Hr, Hq. evaluate. unchanged.
  - (* CbFadeRemove *)
    destruct H as [Hp Hr Hq]. open_world w. cbn in Hp, Hr, Hq. evaluate. unchanged.
  - (* CbAudioEnd *)
    destruct H as [Hp Hr Hq]. open_world w. cbn in Hp, Hr, Hq. evaluate. unchanged.
Qed.

Lemma fire_coherent t w : t ∈ timers w -> coherent w -> coherent (fire t w).
Proof.
  intros Ht H.
  assert (phase_callback (action t) = false) as Hlive.
  { destruct H as [_ _ Hq]. rewrite Forall_forall in Hq. by apply Hq. }
  unfold fire. by apply run_callback_coherent, set_clock_coherent, clearTimeout_coherent.
Qed.

(** Every reachable state is coherent: by induction on the events that led
    to it. *)
Lemma reachable_coherent w : reachable w -> coherent w.
Proof.
  induction 1 as [now sc ctx | e w Hw IH He].
  - apply construct_coherent.
  - destruct e; unfold handle.
    + by apply initiatePlanetTravel_coherent.
    + by apply handleConfirm_coherent.
    + by apply handleCancel_coherent.
    + by apply startTravelSequence_coherent.
    + by apply cancelTravel_coherent.
    + by apply returnToOrbit_coherent.
    + by apply emergencyReturnToOrbit_coherent.
    + apply fire_coherent; [exact He | exact IH].
Qed.

Lemma reachable_orbit : reachable orbit.
Proof. apply reach_construct. Qed.

Lemma reach_select p w : reachable w -> reachable (TravelSystem.initiatePlanetTravel p w).
Proof. intros H. exact (reach_event (EvSelect p) w H I). Qed.

Lemma reach_start w : reachable w -> reachable (TravelSystem.startTravelSequence w).
Proof. intros H. exact (reach_event EvStart w H I). Qed.

Lemma reachable_launched : reachable launched.
Proof. exact (reach_start _ (reach_select careerPlanet _ reachable_orbit)). Qed.

(** In the wired-up flow the coordinator never registers a phase timer. *)
Lemma reachable_registry_empty w : reachable w -> phaseTimers (ts w) = ∅.
Proof. intros Hw. apply coh_registry, reachable_coherent, Hw. Qed.

(** ** Timers that the registry does not hold stay in the queue *)

Lemma live_elem_inv (m : gmap string nat) (id : nat) :
  id ∈ live (map_to_list m) -> exists name, m !! name = Some id.
Proof.
  unfold live. intros H. apply list_elem_of_filter in H as [_ H].
  apply list_elem_of_fmap in H as [[name id'] [-> H]].
  exists name. by apply elem_of_map_to_list.
Qed.

Lemma elem_of_kept (m : gmap string nat) (l : list timer) (t : timer) :
  t ∈ l -> (forall name, m !! name ≠ Some (timer_id t)) -> t ∈ kept m l.
Proof.
  intros Ht Hfree. unfold kept. apply list_elem_of_filter. split; [|exact Ht].
  intros Hin. apply live_elem_inv in Hin as [name Hname]. by apply (Hfree name).
Qed.

Ltac still_queued Ht Hfree :=
  repeat lazymatch goal with
         | |- list_elem_of _ (kept _ _) => apply elem_of_kept; [|exact Hfree]
         | |- _ ∈ kept _ _ => apply elem_of_kept; [|exact Hfree]
         | |- list_elem_of _ (_ ++ _)%list => apply elem_of_app; left
         | |- _ ∈ (_ ++ _)%list => apply elem_of_app; left
         end;
  exact Ht.

Lemma return_paths_keep_unregistered w t :
  t ∈ timers w -> (forall name, phaseTimers (ts w) !! name ≠ Some (timer_id t)) ->
  t ∈ timers (TravelSystem.returnToOrbit w)
  ∧ t ∈ timers (TravelSystem.cancelTravel w)
  ∧ t ∈ timers (TravelSystem.emergencyReturnToOrbit w).
Proof.
  intros Ht Hfree. closed_forms. open_world w. cbv [timers ts phaseTimers] in Ht, Hfree.
  destruct vis, act, playing, cur, dpi; evaluate; rewrite ?kept_empty;
    (split; [|split]); still_queued Ht Hfree.
Qed.

Lemma return_paths_keep_reachable w t :
  reachable w -> t ∈ timers w ->
  t ∈ timers (TravelSystem.returnToOrbit w)
  ∧ t ∈ timers (TravelSystem.cancelTravel w)
  ∧ t ∈ timers (TravelSystem.emergencyReturnToOrbit w).
Proof.
  intros Hw Ht. apply return_paths_keep_unregistered; [exact Ht|].
  intros name. rewrite (reachable_registry_empty w Hw). by rewrite lookup_empty.
Qed.

(** Two calls of the coordinator's [arriveAtPlanet]: the registry holds the
    second timer only, and the first is still in the queue. *)
Lemma arriveAtPlanet_twice w :
  (forall name, phaseTimers (ts w) !! name ≠ Some (next_timer w)) ->
  exists t,
    timer_id t = next_timer w
    ∧ action t = CbTsShowContent
    ∧ t ∈ timers (TravelSystem.arriveAtPlanet (TravelSystem.arriveAtPlanet w))
    ∧ forall name,
        phaseTimers (ts (TravelSystem.arriveAtPlanet (TravelSystem.arriveAtPlanet w)))
          !! name ≠ Some (timer_id t).
Proof.
  intros Hfresh.
  unfold TravelSystem.arriveAtPlanet, TravelSystem.set_phase_timer, setTimeout.
  destruct w as [c q n [trav tphase tsel tstart torig tpt] ? ? ? ? ? ?].
  cbn in Hfresh. cbn -[insert Z.add Z.max to_long].
  eexists (Timer n _ CbTsShowContent). split; [reflexivity|]. split; [reflexivity|].
  split.
  - rewrite <- app_assoc. apply elem_of_app. right. apply list_elem_of_here.
  - intros name. cbn [timer_id].
    destruct (decide (name = "showContent")) as [->|Hn].
    + rewrite lookup_insert_eq. intros H. injection H. lia.
    + rewrite !lookup_insert_ne by done. apply Hfresh.
Qed.

(** ** The validation callback, in general *)

Lemma validateHyperspaceStarted_inactive w :
  isActive (ht w) = false -> TravelSystem.validateHyperspaceStarted w = Thrown w.
Proof.
  intros H. unfold TravelSystem.validateHyperspaceStarted,
    HyperspaceTravel.isHyperspaceActive. by rewrite H.
Qed.

Lemma validateHyperspaceStarted_active w :
  isActive (ht w) = true -> TravelSystem.validateHyperspaceStarted w = Done w.
Proof.
  intros H. unfold TravelSystem.validateHyperspaceStarted,
    HyperspaceTravel.isHyperspaceActive. by rewrite H.
Qed.

Lemma startHyperspaceSequence_throws env w :
  ts_currentPhase (ts w) = "cockpit" ->
  TravelSystem.startHyperspaceSequence env w
  = Thrown (on_ts (set_ts_currentPhase "hyperspace") w).
Proof.
  intros H. unfold TravelSystem.startHyperspaceSequence. by rewrite H.
Qed.

(** ** The confirm and initiate guards *)

(** C1 (as amended).  [startTravelSequence] is guarded by the selected
    planet, not by the phase: when no planet is selected it returns at once
    and the whole world, coordinator fields and timer queue included, is
    unchanged.  In every reachable state that is the case in phase
    'orbit'. *)
Theorem startTravelSequence_without_planet (w : world) :
  (ts_selectedPlanet (ts w) = None -> TravelSystem.startTravelSequence w = w)
  ∧ (reachable w -> ts_currentPhase (ts w) = "orbit" ->
     TravelSystem.startTravelSequence w = w).
Proof.
  assert (ts_selectedPlanet (ts w) = None -> TravelSystem.startTravelSequence w = w) as Hnone.
  { intros H. unfold TravelSystem.startTravelSequence. by rewrite H. }
  split; [exact Hnone|].
  intros Hw Hphase. apply Hnone.
  destruct (coh_phase w (reachable_coherent w Hw)) as [(_ & _ & H)|[(H & _)|(H & _)]];
    [exact H | congruence | congruence].
Qed.

Lemma startTravelSequence_without_planet_witness :
  ts_selectedPlanet (ts orbit) = None
  ∧ ts_currentPhase (ts orbit) = "orbit"
  ∧ TravelSystem.startTravelSequence orbit = orbit.
Proof.
  split; [reflexivity|]. split; [reflexivity|].
  apply (startTravelSequence_without_planet orbit); [apply reachable_orbit | reflexivity].
Defined.

(** C1 fails as stated.  One second into the travel the phase is
    'traveling', not 'confirmation', yet a second [startTravelSequence]
    overwrites [travelStartTime]; and once the effect has been reset it
    also schedules a new timer. *)
Lemma startTravelSequence_outside_confirmation :
  ts_currentPhase (ts in_hyperspace) ≠ "confirmation"
  ∧ travelStartTime (ts in_hyperspace) = 0
  ∧ travelStartTime (ts (TravelSystem.startTravelSequence in_hyperspace)) = 1000
  ∧ ts_currentPhase (ts (HyperspaceTravel.reset in_hyperspace)) ≠ "confirmation"
  ∧ length (timers (TravelSystem.startTravelSequence (HyperspaceTravel.reset in_hyperspace)))
    = S (length (timers (HyperspaceTravel.reset in_hyperspace))).
Proof. vm_compute. repeat split; congruence. Qed.

(** C2 (as amended).  [initiatePlanetTravel] is guarded by [isTravel]: once
    a travel has started it changes nothing, and the stored planet stays.
    In every reachable state that is the case in every phase other than
    'orbit' and 'confirmation'. *)
Theorem initiatePlanetTravel_while_travelling (w : world) (p : planet) :
  (isTravel (ts w) = true -> TravelSystem.initiatePlanetTravel p w = w)
  ∧ (reachable w -> ts_currentPhase (ts w) ≠ "orbit" ->
     ts_currentPhase (ts w) ≠ "confirmation" ->
     TravelSystem.initiatePlanetTravel p w = w).
Proof.
  assert (isTravel (ts w) = true -> TravelSystem.initiatePlanetTravel p w = w) as Htravel.
  { intros H. unfold TravelSystem.initiatePlanetTravel. by rewrite H. }
  split; [exact Htravel|].
  intros Hw Ho Hc. apply Htravel.
  destruct (coh_phase w (reachable_coherent w Hw)) as [(H & _)|[(H & _)|(_ & H & _)]];
    [congruence | congruence | exact H].
Qed.

Lemma initiatePlanetTravel_while_travelling_witness :
  isTravel (ts launched) = true
  ∧ ts_currentPhase (ts launched) = "traveling"
  ∧ ts_selectedPlanet (ts launched) = Some careerPlanet
  ∧ TravelSystem.initiatePlanetTravel educationWorld launched = launched.
Proof.
  split; [reflexivity|]. split; [reflexivity|]. split; [reflexivity|].
  apply (initiatePlanetTravel_while_travelling launched educationWorld);
    [apply reachable_launched | discriminate | discriminate].
Defined.

(** C2 fails as stated.  While the dialog is open the phase is
    'confirmation', not 'orbit', and [isTravel] is still false: a second
    [initiatePlanetTravel] replaces the stored planet. *)
Lemma initiatePlanetTravel_overwrites_when_confirming :
  ts_currentPhase (ts confirming) ≠ "orbit"
  ∧ ts_selectedPlanet (ts confirming) = Some careerPlanet
  ∧ ts_selectedPlanet (ts (TravelSystem.initiatePlanetTravel educationWorld confirming))
    = Some educationWorld.
Proof. vm_compute. repeat split; congruence. Qed.

(** ** Returning to orbit *)




(** ** Timers *)

(** C4 (as amended).  [cancelTravel], [returnToOrbit] and
    [emergencyReturnToOrbit] cancel exactly the timers whose ids
    [phaseTimers] holds when they are called: such a timer is not pending
    when they return, and every other pending timer still is.  The registry
    holds one id per name, so a timer whose entry a later registration under
    the same name replaced (two calls of the coordinator's [arriveAtPlanet])
    is not cancelled.  In a reachable state the registry is empty, the
    travel runs on the effect's own timers, which are registered nowhere,
    and none of the three cancels any timer.  When a timer of the effect
    fires while the effect is idle, the callbacks [transitionToApproach] and
    [arriveAtPlanet] return without changing anything. *)
Theorem phase_timers_cancelled (w : world) :
  let c := TravelSystem.cancelTravel in
  let r := TravelSystem.returnToOrbit in
  let e := TravelSystem.emergencyReturnToOrbit in
  let twice := TravelSystem.arriveAtPlanet (TravelSystem.arriveAtPlanet w) in
  (forall name id,
     phaseTimers (ts w) !! name = Some id -> id ≠ 0%nat -> (id < next_timer w)%nat ->
     ¬ pending id (c w) ∧ ¬ pending id (r w) ∧ ¬ pending id (e w))
  ∧ (forall t, t ∈ timers w ->
       (forall name, phaseTimers (ts w) !! name ≠ Some (timer_id t)) ->
       t ∈ timers (c w) ∧ t ∈ timers (r w) ∧ t ∈ timers (e w))
  ∧ ((forall name, phaseTimers (ts w) !! name ≠ Some (next_timer w)) ->
     pending (next_timer w) twice
     ∧ pending (next_timer w) (c twice)
     ∧ pending (next_timer w) (r twice)
     ∧ pending (next_timer w) (e twice))
  ∧ (reachable w ->
     phaseTimers (ts w) = ∅
     ∧ forall t, t ∈ timers w -> t ∈ timers (c w) ∧ t ∈ timers (r w) ∧ t ∈ timers (e w))
  ∧ (forall v, ht_currentPhase (ht v) = "idle" ->
       after (run_callback CbHsToApproach v) = v
       ∧ after (run_callback CbHsArrive v) = v).
Proof.
  cbv zeta. split; [|split; [|split; [|split]]].
  - intros name id Hm Hid Hn.
    split; [exact (cancelTravel_clears w name id Hm Hid Hn)|].
    split; [exact (returnToOrbit_clears w name id Hm Hid Hn)|].
    exact (emergencyReturnToOrbit_clears w name id Hm Hid Hn).
  - intros t Ht Hfree.
    destruct (return_paths_keep_unregistered w t Ht Hfree) as (Hr & Hc & He).
    by repeat split.
  - intros Hfresh.
    destruct (arriveAtPlanet_twice w Hfresh) as (t & Hid & _ & Ht & Hfree).
    destruct (return_paths_keep_unregistered _ t Ht Hfree) as (Hr & Hc & He).
    repeat split; exists t; by split.
  - intros Hw. split; [exact (reachable_registry_empty w Hw)|].
    intros t Ht.
    destruct (return_paths_keep_reachable w t Hw Ht) as (Hr & Hc & He).
    by repeat split.
  - intros v Hv. cbn. split.
    + apply transitionToApproach_guard. by rewrite Hv.
    + apply arriveAtPlanet_guard. by rewrite Hv.
Qed.

Lemma phase_timers_cancelled_witness :
  (pending 4 with_phase_timer
   ∧ ¬ pending 4 (TravelSystem.cancelTravel with_phase_timer)
   ∧ ¬ pending 4 (TravelSystem.returnToOrbit with_phase_timer)
   ∧ ¬ pending 4 (TravelSystem.emergencyReturnToOrbit with_phase_timer))
  ∧ (Timer 3 4000 CbHsToApproach ∈ timers with_phase_timer
     ∧ Timer 3 4000 CbHsToApproach ∈ timers (TravelSystem.cancelTravel with_phase_timer))
  ∧ (pending 4 (TravelSystem.cancelTravel
                  (TravelSystem.arriveAtPlanet (TravelSystem.arriveAtPlanet in_hyperspace)))
     ∧ pending 4 (TravelSystem.emergencyReturnToOrbit
                    (TravelSystem.arriveAtPlanet (TravelSystem.arriveAtPlanet in_hyperspace))))
  ∧ (phaseTimers (ts launched) = ∅
     ∧ Timer 3 4000 CbHsToApproach ∈ timers (TravelSystem.returnToOrbit launched)).
Proof.
  pose proof (phase_timers_cancelled with_phase_timer) as P. cbv zeta in P.
  destruct P as (Held & Other & _).
  pose proof (phase_timers_cancelled in_hyperspace) as Q. cbv zeta in Q.
  destruct Q as (_ & _ & Twice & _).
  pose proof (phase_timers_cancelled launched) as R. cbv zeta in R.
  destruct R as (_ & _ & _ & Reach & _).
  split; [|split; [|split]].
  - split.
    + exists (Timer 4 1300 CbTsShowContent). split; [|reflexivity].
      vm_compute. apply list_elem_of_further, list_elem_of_here.
    + apply (Held "showContent" 4%nat); [vm_compute; reflexivity | lia | vm_compute; lia].
  - assert (Timer 3 4000 CbHsToApproach ∈ timers with_phase_timer) as Hin.
    { vm_compute. apply list_elem_of_here. }
    split; [exact Hin|].
    assert (forall name : string,
               phaseTimers (ts with_phase_timer) !! name
               ≠ Some (timer_id (Timer 3 4000 CbHsToApproach))) as Hfree.
    { intros name. cbn [timer_id].
      destruct (decide (name = "showContent")) as [->|Hn].
      - vm_compute. discriminate.
      - change (phaseTimers (ts with_phase_timer))
          with (<["showContent" := 4%nat]> (∅ : gmap string nat)).
        rewrite lookup_insert_ne by done. by rewrite lookup_empty. }
    destruct (Other _ Hin Hfree) as (Hc & _). exact Hc.
  - assert (forall name : string,
               phaseTimers (ts in_hyperspace) !! name ≠ Some (next_timer in_hyperspace))
      as Hfresh.
    { intros name. vm_compute. discriminate. }
    destruct (Twice Hfresh) as (_ & Hc & _ & He).
    split; [exact Hc | exact He].
  - destruct (Reach reachable_launched) as (Hempty & Hall).
    split; [exact Hempty|].
    assert (Timer 3 4000 CbHsToApproach ∈ timers launched) as Hl.
    { vm_compute. apply list_elem_of_further, list_elem_of_further, list_elem_of_here. }
    destruct (Hall _ Hl) as (_ & Hr & _). exact Hr.
Defined.

(** C4 fails as stated.  The timer that [startTravel] set is still pending
    after [cancelTravel] and after [emergencyReturnToOrbit]; after
    [cancelTravel] it fires three seconds later and moves the effect to its
    approach phase, and the sequence runs on to the content modal. *)
Lemma orphaned_timer_fires :
  pending_action CbHsToApproach (TravelSystem.cancelTravel in_hyperspace)
  ∧ pending_action CbHsToApproach (TravelSystem.emergencyReturnToOrbit in_hyperspace)
  ∧ fired_until 64 8000 (TravelSystem.cancelTravel in_hyperspace)
    = [CbHsToApproach; CbHsArrive; CbHsShowContent]
  ∧ ht_currentPhase (ht (later 3000 (TravelSystem.cancelTravel in_hyperspace))) = "approach"
  ∧ ts_currentPhase (ts (later 3000 (TravelSystem.cancelTravel in_hyperspace))) = "orbit"
  ∧ content_overlay_hidden (dom (later 7000 (TravelSystem.cancelTravel in_hyperspace))) = false.
Proof.
  split; [|split].
  - exists (Timer 3 4000 CbHsToApproach). split; [|reflexivity].
    vm_compute. apply list_elem_of_here.
  - exists (Timer 3 4000 CbHsToApproach). split; [|reflexivity].
    vm_compute. apply list_elem_of_here.
  - vm_compute. repeat split.
Qed.

(** ** Audio on cancel *)

(** C5 (as amended).  [cancelTravel] does not touch the audio component:
    [isAudioPlaying] keeps its value.  The emergency path calls
    [TravelAudio.stop], and when a real playback is under way
    ([currentAudio] set) [isAudioPlaying] is false right after
    [emergencyReturnToOrbit]. *)
Theorem audio_on_cancel (w : world) :
  TravelAudio.isAudioPlaying (TravelSystem.cancelTravel w) = TravelAudio.isAudioPlaying w
  ∧ (is_Some (currentAudio (ta w)) ->
     TravelAudio.isAudioPlaying (TravelSystem.emergencyReturnToOrbit w) = false).
Proof.
  split.
  - apply cancelTravel_keeps_audio.
  - apply emergencyReturnToOrbit_stops_playback.
Qed.

Lemma audio_on_cancel_witness :
  TravelAudio.isAudioPlaying playing_clip = true
  ∧ is_Some (currentAudio (ta playing_clip))
  ∧ TravelAudio.isAudioPlaying (TravelSystem.emergencyReturnToOrbit playing_clip) = false.
Proof.
  assert (is_Some (currentAudio (ta playing_clip))) as Hclip.
  { exists WebAudioSource. vm_compute. reflexivity. }
  split; [vm_compute; reflexivity|]. split; [exact Hclip|].
  destruct (audio_on_cancel playing_clip) as [_ H]. exact (H Hclip).
Defined.

(** C5 fails as stated.  With the coordinator's phase and the effect's phase
    both 'hyperspace' and a narration session active, the session is still
    playing right after [cancelTravel]. *)
Lemma cancelTravel_leaves_audio_playing :
  ts_currentPhase (ts narrating) = "hyperspace"
  ∧ ht_currentPhase (ht narrating) = "hyperspace"
  ∧ TravelAudio.isAudioPlaying narrating = true
  ∧ TravelAudio.isAudioPlaying (TravelSystem.cancelTravel narrating) = true.
Proof. vm_compute. repeat split. Qed.

(** ** The forward sequence *)

(** C6 (as amended).  After [initiatePlanetTravel(careerPlanet)] and
    [startTravelSequence()] with no further input, the effect is in phase
    'approach' once its hyperspace timing (4000 ms) has passed, in phase
    'arrived' once hyperspace plus approach (7000 ms) have passed, and in
    phase 'content' 500 ms later; by then [getContentForPlanet] has been
    called exactly once, with 'work-planet', and the application's
    [getWorkContent] exactly once.  The coordinator's own phase reads
    'traveling' throughout. *)
Theorem forward_sequence :
  let hs := HyperspaceTravel.timing_hyperspace in
  let ap := HyperspaceTravel.timing_approach in
  (HyperspaceTravel.getCurrentPhase launched = "hyperspace"
   ∧ option_map HyperspaceTravel.getCurrentPhase (elapse (hs - 1) launched) = Some "hyperspace"
   ∧ option_map HyperspaceTravel.getCurrentPhase (elapse hs launched) = Some "approach"
   ∧ option_map HyperspaceTravel.getCurrentPhase (elapse (hs + ap) launched) = Some "arrived"
   ∧ option_map HyperspaceTravel.getCurrentPhase (elapse (hs + ap + 500) launched) = Some "content")
  ∧ (option_map (fun w => content_queries (app w)) (elapse (hs + ap) launched) = Some []
     ∧ option_map (fun w => content_queries (app w)) (elapse (hs + ap + 500) launched)
       = Some ["work-planet"]
     ∧ option_map (fun w => app_calls (app w)) (elapse (hs + ap + 500) launched)
       = Some [getWorkContent]
     ∧ option_map (fun w => content_queries (app w)) (elapse 60000 launched)
       = Some ["work-planet"])
  ∧ (option_map (fun w => content_title (dom w)) (elapse (hs + ap + 500) launched)
       = Some (VString "Work Experience")
     ∧ option_map (fun w => content_body (dom w)) (elapse (hs + ap + 500) launched)
       = Some (AppContent getWorkContent)
     ∧ option_map (fun w => content_overlay_hidden (dom w)) (elapse (hs + ap + 500) launched)
       = Some false)
  ∧ (option_map TravelSystem.getCurrentPhase (elapse hs launched) = Some "traveling"
     ∧ option_map TravelSystem.getCurrentPhase (elapse (hs + ap + 500) launched)
       = Some "traveling").
Proof. vm_compute. repeat split. Qed.

(** C6 fails as stated.  When hyperspace plus approach durations have
    passed the effect is in phase 'arrived' and no content has been asked
    for; with the coordinator's own [travelConfig] (3000 ms of hyperspace)
    the effect is still in phase 'hyperspace'. *)
Lemma content_not_reached_after_approach :
  option_map HyperspaceTravel.getCurrentPhase
    (elapse (HyperspaceTravel.timing_hyperspace + HyperspaceTravel.timing_approach) launched)
  = Some "arrived"
  ∧ option_map (fun w => content_queries (app w))
      (elapse (HyperspaceTravel.timing_hyperspace + HyperspaceTravel.timing_approach) launched)
    = Some []
  ∧ option_map HyperspaceTravel.getCurrentPhase (elapse TravelSystem.hyperspace_ms launched)
    = Some "hyperspace"
  ∧ option_map TravelSystem.getCurrentPhase
      (elapse (TravelSystem.hyperspace_ms + TravelSystem.planetApproach_ms) launched)
    = Some "traveling".
Proof. vm_compute. repeat split. Qed.

(** ** Validation of the hyperspace phase *)

(** C7, evaluated where it fails.  When the effect is inactive the
    validation callback throws at [hyperspaceTravel.start()] and leaves the
    effect shut down; when the effect is active but invisible it changes
    nothing; and [startHyperspaceSequence] throws at the same call before
    it has set any timer, so no advance to the approach phase is queued. *)
Theorem validation_does_not_retry :
  (isActive (ht effect_lost) = false
   ∧ TravelSystem.validateHyperspaceStarted effect_lost = Thrown effect_lost)
  ∧ (travelGroup_visible (ht effect_invisible) = false
     ∧ TravelSystem.validateHyperspaceStarted effect_invisible = Done effect_invisible)
  ∧ (forall env,
       threw (TravelSystem.startHyperspaceSequence env in_cockpit) = true
       ∧ timers (after (TravelSystem.startHyperspaceSequence env in_cockpit))
         = timers in_cockpit
       ∧ phaseTimers (ts (after (TravelSystem.startHyperspaceSequence env in_cockpit))) = ∅
       ∧ isActive (ht (after (TravelSystem.startHyperspaceSequence env in_cockpit))) = false).
Proof.
  split; [|split].
  - split; [vm_compute; reflexivity|].
    apply validateHyperspaceStarted_inactive. vm_compute. reflexivity.
  - split; [vm_compute; reflexivity|].
    apply validateHyperspaceStarted_active. vm_compute. reflexivity.
  - intros env. rewrite startHyperspaceSequence_throws by (vm_compute; reflexivity).
    cbn [threw after]. repeat split; vm_compute; reflexivity.
Qed.

(** ** Content lookup *)

(** C8, evaluated where it fails.  'constructor' is not a planet identifier;
    [getContentForPlanet] answers with the fallback body, but
    [getTitleForPlanet] finds the property that [titleMap] inherits from
    [Object.prototype] and returns that function instead of the fallback
    title. *)
Theorem title_of_inherited_key :
  HyperspaceTravel.getContentForPlanet "constructor" = HyperspaceTravel.not_available
  ∧ HyperspaceTravel.getTitleForPlanet "constructor" = VBuiltin "constructor"
  ∧ HyperspaceTravel.getTitleForPlanet "constructor" ≠ HyperspaceTravel.fallback_title
  ∧ HyperspaceTravel.getTitleForPlanet "moon-base" = HyperspaceTravel.fallback_title.
Proof. vm_compute. repeat split. congruence. Qed.

(** ** Narration fallback *)

(** C9, evaluated where it fails.  In a browser without Web Audio the clip
    of the career planet has a URL and has loaded; [playVoiceOver] starts
    it through the HTML5 element, and when the browser rejects
    [audio.play()] the handler ends the session at once: nothing is
    playing and no simulated-duration timer has been set.  Without a URL
    the same call does fall back to the simulated timer. *)
Theorem rejected_playback_is_not_simulated :
  let started := TravelAudio.playVoiceOver TravelAudio.WebStarts "work-planet" html5_ready in
  let rejected := TravelAudio.play_rejected started in
  (TravelAudio.isAudioPlaying started = true
   ∧ currentAudio (ta started) = Some Html5Element
   ∧ timers started = [])
  ∧ (TravelAudio.isAudioPlaying rejected = false
     ∧ timers rejected = [])
  ∧ (let silent_run := TravelAudio.playVoiceOver TravelAudio.WebStarts "work-planet" orbit in
     TravelAudio.isAudioPlaying silent_run = true
     ∧ timers silent_run = [Timer 1 10000 CbAudioEnd]).
Proof. vm_compute. repeat split. Qed.

(** ** Cleanup *)

(** C10.  [executeCompleteCleanup] is idempotent from every state: a second
    call changes nothing.  After it the effect is off (inactive, phase
    'idle', no planet, travel group, stars and approach planet gone, the
    interface layers hidden) and the scene is restored from the saved
    state: background, fog and clear alpha are the saved ones, the clear
    colour is the saved one when one was saved (the renderer keeps its
    colour when the snapshot holds null), and every object that
    [hideOrbitalObjects] marked is visible again and unmarked, the others
    being as they were.  [reset], [emergencyStop] and [emergencyCleanup]
    are the same function. *)
Theorem executeCompleteCleanup_idempotent (w : world) :
  let once := HyperspaceTravel.executeCompleteCleanup w in
  HyperspaceTravel.executeCompleteCleanup once = once
  ∧ effect_off once
  ∧ restored (originalSceneState (ht w)) (scene w) (scene once)
  ∧ Forall2 (fun o o' =>
               obj_name o' = obj_name o
               ∧ obj_type o' = obj_type o
               ∧ obj_visible o' = obj_visible o || wasVisibleBeforeTravel o
               ∧ wasVisibleBeforeTravel o' = false)
            (objects (scene w)) (objects (scene once))
  ∧ originalSceneState (ht once) = originalSceneState (ht w)
  ∧ HyperspaceTravel.reset w = once
  ∧ HyperspaceTravel.emergencyStop w = once
  ∧ HyperspaceTravel.emergencyCleanup w = once.
Proof.
  cbv zeta. split; [|split; [|split; [|split; [|split]]]].
  - open_world w. destruct snap as [sb sf [sc|] sa];
      cbv -[map HyperspaceTravel.restore_object];
      by rewrite map_const_false_idem, map_restore_object_idem.
  - apply executeCompleteCleanup_effect_off.
  - apply executeCompleteCleanup_restored.
  - open_world w. cbv -[map HyperspaceTravel.restore_object].
    induction objs as [|[oname otype ovis omark] l IH]; [constructor|].
    cbn [map]. constructor; [|exact IH].
    destruct ovis, omark; repeat split.
  - by open_world w.
  - repeat split.
Qed.

(** * Further properties *)

(** ** Further properties: the coordinator in reachable states *)

(** X1.  In every reachable state the coordinator is in phase 'orbit',
    'confirmation' or 'traveling'; [isTravel] holds exactly in phase
    'traveling' and a planet is selected exactly outside phase 'orbit'; no
    phase timer is registered, so [clearPhaseTimers] removes nothing from
    the timer queue. *)
Theorem coordinator_phases (w : world) :
  reachable w ->
  ts_currentPhase (ts w) ∈ ["orbit"; "confirmation"; "traveling"]
  ∧ (isTravel (ts w) = true <-> ts_currentPhase (ts w) = "traveling")
  ∧ (ts_selectedPlanet (ts w) = None <-> ts_currentPhase (ts w) = "orbit")
  ∧ phaseTimers (ts w) = ∅
  ∧ timers (TravelSystem.clearPhaseTimers w) = timers w.
Proof.
  intros Hw. destruct (reachable_coherent w Hw) as [Hp Hr Hq].
  split; [|split; [|split; [|split]]].
  - destruct Hp as [(-> & _)|[(-> & _)|(-> & _)]]; set_solver.
  - destruct Hp as [(Hph & Ht & _)|[(Hph & Ht & _)|(Hph & Ht & _)]];
      rewrite Hph, Ht; split; intros H; try reflexivity; discriminate H.
  - destruct Hp as [(Hph & _ & Hs)|[(Hph & _ & [p Hs])|(Hph & _ & [p Hs])]];
      rewrite Hph, Hs; split; intros H; try reflexivity; discriminate H.
  - exact Hr.
  - rewrite clearPhaseTimers_eq, Hr. destruct w. apply kept_empty.
Qed.

Lemma coordinator_phases_witness :
  ts_currentPhase (ts launched) = "traveling"
  ∧ isTravel (ts launched) = true
  ∧ timers (TravelSystem.clearPhaseTimers launched) = timers launched.
Proof.
  destruct (coordinator_phases launched reachable_launched) as (_ & _ & _ & _ & H).
  split; [vm_compute; reflexivity|]. split; [vm_compute; reflexivity|]. exact H.
Defined.

(** ** Further properties: the scene around a travel *)

Lemma restore_hide_object o :
  wasVisibleBeforeTravel o = false ->
  HyperspaceTravel.restore_object (HyperspaceTravel.hide_object o) = o.
Proof.
  destruct o as [name type vis flag]. cbn. intros ->.
  unfold HyperspaceTravel.hide_object, HyperspaceTravel.orbital.
  cbn [obj_visible obj_type obj_name].
  destruct vis; [|reflexivity].
  destruct (_ && _ && _ && _); reflexivity.
Qed.

Lemma restore_hide_objects l :
  Forall (fun o => wasVisibleBeforeTravel o = false) l ->
  map HyperspaceTravel.restore_object (map HyperspaceTravel.hide_object l) = l.
Proof.
  induction 1 as [|o l Ho Hl IH]; [reflexivity|].
  cbn [map]. by rewrite restore_hide_object, IH.
Qed.

(** X2.  A travel that is cleaned up leaves the scene as it found it:
    when the effect is idle and no object carries a stale
    [wasVisibleBeforeTravel] mark, [startTravel] followed by
    [executeCompleteCleanup] restores background, fog, clear colour, camera
    and the visibility of every object. *)
Theorem travel_cleanup_restores_scene (w : world) (p : planet) :
  isActive (ht w) = false ->
  Forall (fun o => wasVisibleBeforeTravel o = false) (objects (scene w)) ->
  scene (HyperspaceTravel.executeCompleteCleanup (HyperspaceTravel.startTravel p w))
  = scene w.
Proof.
  intros Ha Hflags. open_world w. cbn in Ha, Hflags. subst act.
  evaluate. by rewrite restore_hide_objects.
Qed.

Lemma travel_cleanup_restores_scene_witness :
  scene (HyperspaceTravel.executeCompleteCleanup
           (HyperspaceTravel.startTravel careerPlanet orbit))
  = scene orbit.
Proof.
  apply (travel_cleanup_restores_scene orbit careerPlanet).
  - reflexivity.
  - repeat constructor.
Defined.

(** X3.  [hideOrbitalObjects] hides every visible mesh or group whose name
    mentions neither 'Light' nor 'Camera', and only those: afterwards no such
    object is left visible, and lights, cameras, objects of other types and
    objects that were already invisible are exactly as before.  (The travel
    group and its children, which the code exempts, are not among the
    [objects] of the scene: they are kept in the effect's own state.) *)
Theorem hideOrbitalObjects_selects (w : world) :
  Forall (fun o => HyperspaceTravel.orbital o = false)
         (objects (scene (HyperspaceTravel.hideOrbitalObjects w)))
  ∧ (forall o,
       includes (obj_name o) "Light" = true ∨ includes (obj_name o) "Camera" = true
       ∨ (obj_type o ≠ "Mesh" ∧ obj_type o ≠ "Group") ∨ obj_visible o = false ->
       HyperspaceTravel.hide_object o = o)
  ∧ length (objects (scene (HyperspaceTravel.hideOrbitalObjects w)))
    = length (objects (scene w)).
Proof.
  split; [|split].
  - destruct w as [? ? ? ? ? ? ? [? ? ? ? ? ? objs] ? ?].
    cbv [HyperspaceTravel.hideOrbitalObjects on_scene set_scene set_objects scene objects].
    induction objs as [|o l IH]; [constructor|].
    cbn [map]. constructor; [|exact IH].
    unfold HyperspaceTravel.hide_object.
    destruct (HyperspaceTravel.orbital o) eqn:Ho; [|exact Ho].
    destruct o; reflexivity.
  - intros o H. unfold HyperspaceTravel.hide_object.
    destruct (HyperspaceTravel.orbital o) eqn:Ho; [|reflexivity].
    exfalso. unfold HyperspaceTravel.orbital in Ho.
    apply andb_prop in Ho as [Ho Hcam]. apply andb_prop in Ho as [Ho Hlight].
    apply andb_prop in Ho as [Hvis Htype].
    destruct H as [H|[H|[[Hm Hg]|H]]].
    + rewrite H in Hlight. discriminate.
    + rewrite H in Hcam. discriminate.
    + apply orb_prop in Htype as [Ht|Ht]; apply bool_decide_eq_true_1 in Ht; congruence.
    + rewrite H in Hvis. discriminate.
  - destruct w as [? ? ? ? ? ? ? [? ? ? ? ? ? objs] ? ?].
    cbv [HyperspaceTravel.hideOrbitalObjects on_scene set_scene set_objects scene objects].
    apply length_map.
Qed.

Lemma hideOrbitalObjects_selects_witness :
  HyperspaceTravel.hide_object (SceneObject "SunLight" "Group" true false)
  = SceneObject "SunLight" "Group" true false.
Proof.
  destruct (hideOrbitalObjects_selects orbit) as (_ & H & _).
  apply (H (SceneObject "SunLight" "Group" true false)).
  left. vm_compute. reflexivity.
Defined.


(** X4.  Cleanup before the first travel wipes the scene: the snapshot of a
    new effect holds nulls, so [executeCompleteCleanup] (and with it
    [reset], [emergencyStop] and the coordinator's [emergencyReturnToOrbit])
    on a newly constructed system sets the scene's background and fog to
    null, whatever they were; the renderer keeps its clear colour. *)
Theorem cleanup_before_first_travel (now : Z) (sc : scene_state) (ctx : bool) :
  let w := construct now sc ctx in
  background (scene (HyperspaceTravel.executeCompleteCleanup w)) = None
  ∧ fog (scene (HyperspaceTravel.executeCompleteCleanup w)) = None
  ∧ background (scene (TravelSystem.emergencyReturnToOrbit w)) = None
  ∧ fog (scene (TravelSystem.emergencyReturnToOrbit w)) = None
  ∧ clearColor (scene (HyperspaceTravel.executeCompleteCleanup w)) = clearColor sc
  ∧ clearColor (scene (TravelSystem.emergencyReturnToOrbit w)) = clearColor sc.
Proof.
  cbv zeta.
  destruct (emergencyReturnToOrbit_restores (construct now sc ctx))
    as [(Hb & Hf & Hc & _) _].
  destruct (executeCompleteCleanup_restored (construct now sc ctx)) as (Hb' & Hf' & Hc' & _).
  repeat split; assumption.
Qed.

(** ** Further properties: stale callbacks and the dialog *)

(** X5.  [showPlanetContent] has no phase guard.  Fired after a cleanup it
    switches the idle effect to phase 'content' and the status line to
    'DATA LINK', then throws at [this.selectedPlanet.id]: no content is
    asked for and the modal stays as it was, but the effect is left in phase
    'content' while inactive. *)
Theorem stale_showPlanetContent (w : world) :
  let c := HyperspaceTravel.executeCompleteCleanup w in
  let o := run_callback CbHsShowContent c in
  threw o = true
  ∧ isActive (ht (after o)) = false
  ∧ ht_currentPhase (ht (after o)) = "content"
  ∧ status_display (dom (after o)) = "DATA LINK"
  ∧ content_queries (app (after o)) = content_queries (app w)
  ∧ content_overlay_hidden (dom (after o)) = content_overlay_hidden (dom w)
  ∧ content_title (dom (after o)) = content_title (dom w)
  ∧ timers (after o) = timers w.
Proof.
  open_world w. evaluate. repeat split.
Qed.

(** X6.  A second selection while the dialog is open is taken by the
    coordinator but not by the dialog: the coordinator's planet is the
    second one, the dialog still holds and names the first, and the launch
    then goes to the second. *)
Theorem second_selection_desynchronises (w : world) (p1 p2 : planet) :
  isTravel (ts w) = false -> isVisible (tc w) = false -> isActive (ht w) = false ->
  let w2 := TravelSystem.initiatePlanetTravel p2 (TravelSystem.initiatePlanetTravel p1 w) in
  ts_selectedPlanet (ts w2) = Some p2
  ∧ tc_selectedPlanet (tc w2) = Some p1
  ∧ modal_planet_name (tc w2) = info_name p1
  ∧ ht_selectedPlanet (ht (TravelSystem.startTravelSequence w2)) = Some p2.
Proof.
  intros Ht Hv Ha. open_world w. cbn in Ht, Hv, Ha. subst trav vis act.
  destruct p1, p2. evaluate. repeat split.
Qed.

Lemma second_selection_desynchronises_witness :
  tc_selectedPlanet
    (tc (TravelSystem.initiatePlanetTravel educationWorld
           (TravelSystem.initiatePlanetTravel careerPlanet orbit)))
  = Some careerPlanet.
Proof.
  destruct (second_selection_desynchronises orbit careerPlanet educationWorld
              eq_refl eq_refl eq_refl) as (_ & H & _).
  exact H.
Defined.

Lemma hide_keeps_coordinator w : ts (TravelConfirmation.hide w) = ts w.
Proof. open_world w. by destruct vis. Qed.

(** X7.  Cancelling defuses a pending launch.  After the dialog's cancel
    handler (or [cancelTravel] itself) the launch callback that the confirm
    button queued finds no planet selected and changes nothing. *)
Theorem cancel_defuses_launch (w : world) :
  run_callback CbConfirmLaunch (ConfirmationButtons.handleCancel w)
  = Done (ConfirmationButtons.handleCancel w)
  ∧ run_callback CbConfirmLaunch (TravelSystem.cancelTravel w)
    = Done (TravelSystem.cancelTravel w).
Proof.
  destruct (cancelTravel_at_rest w) as (_ & _ & Hsel & _).
  cbn [run_callback]. unfold TravelSystem.startTravelSequence,
    ConfirmationButtons.handleCancel.
  rewrite hide_keeps_coordinator. by rewrite Hsel.
Qed.

(** X8.  From a state with no travel under way and the dialog closed,
    selecting a planet and pressing the launch button queues the launch
    800 ms ahead and disables the buttons; when that timer's callback runs,
    the coordinator is travelling, the dialog is closed, the canvas ignores
    the pointer, and the effect is active in its hyperspace phase for the
    selected planet. *)
Theorem confirm_launches (w : world) (p : planet) :
  isTravel (ts w) = false -> isVisible (tc w) = false -> isActive (ht w) = false ->
  let w1 := ConfirmationButtons.handleConfirm (TravelSystem.initiatePlanetTravel p w) in
  let w2 := after (run_callback CbConfirmLaunch w1) in
  (Timer (S (next_timer w)) (clock w + 800) CbConfirmLaunch ∈ timers w1
   ∧ buttons_disabled (tc w1) = true
   ∧ isTravel (ts w1) = false)
  ∧ (isTravel (ts w2) = true
     ∧ ts_currentPhase (ts w2) = "traveling"
     ∧ isVisible (tc w2) = false
     ∧ canvas_pointer_events (dom w2) = false
     ∧ isActive (ht w2) = true
     ∧ ht_currentPhase (ht w2) = "hyperspace"
     ∧ ht_selectedPlanet (ht w2) = Some p
     ∧ originalSceneState (ht w2) = snapshot_of (scene w)).
Proof.
  intros Ht Hv Ha. open_world w. cbn in Ht, Hv, Ha. subst trav vis act.
  destruct p. evaluate. change (Z.max 0 800) with 800.
  repeat split. apply elem_of_app. right. apply list_elem_of_here.
Qed.

Lemma confirm_launches_witness :
  let w1 := ConfirmationButtons.handleConfirm
              (TravelSystem.initiatePlanetTravel careerPlanet orbit) in
  isActive (ht (after (run_callback CbConfirmLaunch w1))) = true.
Proof.
  destruct (confirm_launches orbit careerPlanet eq_refl eq_refl eq_refl)
    as (_ & _ & _ & _ & _ & H & _).
  exact H.
Defined.

(** X9.  A launch during the fade of a return is swallowed.  Right after
    [returnToOrbit] the coordinator accepts a new selection and launch, but
    the effect is still active and ignores [startTravel]; when the fade
    callback then cleans up, the effect is off while the coordinator still
    says it is travelling, and it refuses every further selection. *)
Theorem relaunch_during_fade_is_swallowed (w : world) (p : planet) :
  isActive (ht w) = true ->
  let w1 := TravelSystem.startTravelSequence
              (TravelSystem.initiatePlanetTravel p (TravelSystem.returnToOrbit w)) in
  let w2 := after (run_callback CbFadeBlack w1) in
  (isTravel (ts w1) = true
   ∧ ts_selectedPlanet (ts w1) = Some p
   ∧ ht w1 = ht w
   ∧ forall t, t ∈ timers w1 -> action t = CbHsToApproach -> t ∈ timers w)
  ∧ (effect_off w2
     ∧ isTravel (ts w2) = true
     ∧ forall p', TravelSystem.initiatePlanetTravel p' w2 = w2).
Proof.
  intros Ha. closed_forms. open_world w. cbn in Ha. subst act.
  unfold effect_off.
  destruct p, vis, dpi; evaluate; (split; [split; [|split; [|split]]|]);
    try reflexivity;
    try (repeat split; apply Forall_map_false).
  all: intros t Ht Hcb;
    repeat (apply elem_of_app in Ht as [Ht|Ht]);
    try (apply list_elem_of_filter in Ht as [_ Ht]; exact Ht);
    repeat (apply elem_of_cons in Ht as [->|Ht]; [discriminate Hcb|]);
    by apply elem_of_nil in Ht.
Qed.

Lemma relaunch_during_fade_is_swallowed_witness :
  isActive (ht at_content) = true
  ∧ isTravel
      (ts (TravelSystem.startTravelSequence
             (TravelSystem.initiatePlanetTravel educationWorld
                (TravelSystem.returnToOrbit at_content)))) = true
  ∧ ht (TravelSystem.startTravelSequence
          (TravelSystem.initiatePlanetTravel educationWorld
             (TravelSystem.returnToOrbit at_content))) = ht at_content.
Proof.
  assert (isActive (ht at_content) = true) as Ha by (vm_compute; reflexivity).
  destruct (relaunch_during_fade_is_swallowed at_content educationWorld Ha)
    as [(H1 & _ & H2 & _) _].
  split; [exact Ha|]. split; [exact H1 | exact H2].
Defined.

(** ** Further properties: the effect *)

(** X10.  [emergencyReturnToOrbit] fades twice when the effect is active:
    [hyperspaceTravel.stop()] starts one fade and [executeCompleteRestoration]
    another, so two overlays are attached and two cleanup callbacks queued,
    both 500 ms ahead; with an idle effect it is one of each. *)
Theorem emergencyReturnToOrbit_fades (w : world) :
  let e := TravelSystem.emergencyReturnToOrbit w in
  let n := next_timer w in
  let at500 := clock w + 500 in
  fade_overlays (dom e)
  = (if isActive (ht w) then S (S (fade_overlays (dom w))) else S (fade_overlays (dom w)))
  ∧ timers e
    = (kept (phaseTimers (ts w)) (timers w)
       ++ if isActive (ht w)
          then [Timer n at500 CbFadeBlack; Timer (S n) at500 CbFadeBlack]
          else [Timer n at500 CbFadeBlack])%list.
Proof.
  closed_forms. open_world w.
  destruct act, playing, cur, dpi; evaluate; rewrite ?kept_empty, <- ?app_assoc;
    change (Z.max 0 500) with 500; (split; reflexivity).
Qed.

(** X11.  The effect's own [returnToOrbit] runs to completion through its
    three nested callbacks: afterwards the fade overlay is gone again, the
    content modal is hidden, the effect is off, the scene is restored from
    the snapshot (background, fog and clear alpha as saved; the clear colour
    as saved when the snapshot holds one, and unchanged when it holds null),
    and interaction is enabled. *)
Theorem fade_runs_to_completion (w : world) :
  let w1 := HyperspaceTravel.returnToOrbit w in
  let w2 := after (run_callback CbFadeBlack w1) in
  let w3 := after (run_callback CbFadeBack w2) in
  let w4 := after (run_callback CbFadeRemove w3) in
  (fade_overlays (dom w1) = S (fade_overlays (dom w))
   ∧ scene w1 = scene w ∧ ht w1 = ht w)
  ∧ (fade_overlays (dom w4) = fade_overlays (dom w)
     ∧ content_overlay_hidden (dom w4) = true
     ∧ effect_off w4
     ∧ restored (originalSceneState (ht w)) (scene w) (scene w4)
     ∧ interactions_enabled (app w4) = true)
  ∧ (exists d1 d2 d3,
       timers w4
       = (timers w ++ [Timer (next_timer w) d1 CbFadeBlack;
                       Timer (S (next_timer w)) d2 CbFadeBack;
                       Timer (S (S (next_timer w))) d3 CbFadeRemove])%list).
Proof.
  open_world w. unfold effect_off. evaluate.
  repeat split; try apply Forall_map_false.
  do 3 eexists. rewrite <- !app_assoc. reflexivity.
Qed.

(** X12.  The guards of the effect make its transitions safe against
    duplicated timers: a second [transitionToApproach], a second
    [arriveAtPlanet] and a second [startTravel] (for any planet) change
    nothing. *)
Theorem transitions_fire_once (w : world) (p p' : planet) :
  HyperspaceTravel.transitionToApproach (HyperspaceTravel.transitionToApproach w)
  = HyperspaceTravel.transitionToApproach w
  ∧ HyperspaceTravel.arriveAtPlanet (HyperspaceTravel.arriveAtPlanet w)
    = HyperspaceTravel.arriveAtPlanet w
  ∧ HyperspaceTravel.startTravel p' (HyperspaceTravel.startTravel p w)
    = HyperspaceTravel.startTravel p w.
Proof.
  split; [|split].
  - destruct (decide (ht_currentPhase (ht w) = "hyperspace")) as [H|H].
    + apply transitionToApproach_guard.
      unfold HyperspaceTravel.transitionToApproach.
      rewrite bool_decide_eq_true_2 by exact H.
      open_world w. by destruct hsel.
    + rewrite (transitionToApproach_guard w H). exact (transitionToApproach_guard w H).
  - destruct (decide (ht_currentPhase (ht w) = "approach")) as [H|H].
    + apply arriveAtPlanet_guard.
      unfold HyperspaceTravel.arriveAtPlanet.
      rewrite bool_decide_eq_true_2 by exact H.
      by open_world w.
    + rewrite (arriveAtPlanet_guard w H). exact (arriveAtPlanet_guard w H).
  - unfold HyperspaceTravel.startTravel at 1.
    replace (isActive (ht (HyperspaceTravel.startTravel p w))) with true; [reflexivity|].
    open_world w. by destruct act.
Qed.

(** X13.  The forward chain, for every planet.  From an idle effect,
    [startTravel], [transitionToApproach] and [arriveAtPlanet] each set
    exactly one timer (4000, 3000 and 500 ms after the clock of their call)
    and [showPlanetContent] sets none; the phases are 'hyperspace',
    'approach', 'arrived' and 'content'; at the end the modal shows the title
    and body looked up for the planet's id, and [getContentForPlanet] has
    been called once more than before, with that id. *)
Theorem forward_chain (w : world) (p : planet) :
  isActive (ht w) = false ->
  let w1 := HyperspaceTravel.startTravel p w in
  let w2 := after (run_callback CbHsToApproach w1) in
  let w3 := after (run_callback CbHsArrive w2) in
  let o := run_callback CbHsShowContent w3 in
  (timers w1 = (timers w ++ [Timer (next_timer w) (clock w1 + 4000) CbHsToApproach])%list
   ∧ timers w2 = (timers w1 ++ [Timer (S (next_timer w)) (clock w2 + 3000) CbHsArrive])%list
   ∧ timers w3
     = (timers w2 ++ [Timer (S (S (next_timer w))) (clock w3 + 500) CbHsShowContent])%list
   ∧ timers (after o) = timers w3)
  ∧ (ht_currentPhase (ht w1) = "hyperspace"
     ∧ ht_currentPhase (ht w2) = "approach"
     ∧ ht_currentPhase (ht w3) = "arrived"
     ∧ ht_currentPhase (ht (after o)) = "content")
  ∧ (threw o = false
     ∧ content_queries (app (after o)) = (content_queries (app w) ++ [planet_id p])%list
     ∧ content_body (dom (after o)) = HyperspaceTravel.getContentForPlanet (planet_id p)
     ∧ content_title (dom (after o)) = HyperspaceTravel.getTitleForPlanet (planet_id p)
     ∧ content_overlay_hidden (dom (after o)) = false
     ∧ approachPlanet (ht (after o))
       = Some (ApproachMesh (HyperspaceTravel.getPlanetColors (planet_id p)))).
Proof.
  intros Ha. open_world w. cbn in Ha. subst act. destruct p as [pid pname pdesc].
  cbv -[Z.add Z.max Datatypes.app map HyperspaceTravel.getContentForPlanet
        HyperspaceTravel.getTitleForPlanet HyperspaceTravel.getPlanetColors
        HyperspaceTravel.hide_object].
  change (Z.max 0 4000) with 4000. change (Z.max 0 3000) with 3000.
  change (Z.max 0 500) with 500.
  destruct (HyperspaceTravel.getContentForPlanet pid); repeat split.
Qed.

Lemma forward_chain_witness :
  content_queries
    (app (after (run_callback CbHsShowContent
                   (after (run_callback CbHsArrive
                             (after (run_callback CbHsToApproach
                                       (HyperspaceTravel.startTravel careerPlanet orbit))))))))
  = ["work-planet"].
Proof.
  destruct (forward_chain orbit careerPlanet eq_refl) as (_ & _ & _ & H & _).
  exact H.
Defined.

(** ** Further properties: interaction and lookups *)

(** X14.  [enablePlanetInteractions] never shows the planet info panel
    again: whatever the state, afterwards the canvas takes the pointer, the
    navigation panel is back, the application's interactions are enabled,
    and the info panel is hidden - also when it was visible before
    [disablePlanetInteractions] hid it. *)
Theorem enablePlanetInteractions_result (w : world) :
  let e := TravelSystem.enablePlanetInteractions w in
  canvas_pointer_events (dom e) = true
  ∧ controls_travel_hidden (dom e) = false
  ∧ planet_info_hidden (dom e) = true
  ∧ interactions_enabled (app e) = true
  ∧ TravelSystem.enablePlanetInteractions (TravelSystem.disablePlanetInteractions w) = e
  ∧ TravelSystem.enablePlanetInteractions e = e.
Proof.
  open_world w. destruct dpi; evaluate; repeat split.
Qed.

(** X15.  For the six planets the coordinator's own lookup and the effect's
    lookup give the same title and the same content; for the portfolio
    nebula they differ: the effect asks the application for the portfolio,
    the coordinator falls back to the planet's name and 'Content not
    available'. *)
Theorem lookups_agree_on_planets (p : planet) :
  (planet_id p ∈ [ "work-planet"; "education-planet"; "skills-planet";
                   "projects-planet"; "community-planet"; "contact-planet" ] ->
   TravelSystem.content_for p
   = (HyperspaceTravel.getTitleForPlanet (planet_id p),
      HyperspaceTravel.getContentForPlanet (planet_id p)))
  ∧ (planet_id p = "portfolio-nebula" ->
     TravelSystem.content_for p = (VString (info_name p), TravelSystem.not_available)
     ∧ HyperspaceTravel.getContentForPlanet (planet_id p) = AppContent getPortfolioContent
     ∧ HyperspaceTravel.getTitleForPlanet (planet_id p) = VString "Creative Portfolio").
Proof.
  destruct p as [pid pname pdesc]. cbn [planet_id info_name]. split.
  - intros H. unfold TravelSystem.content_for. cbn [planet_id info_name].
    repeat (apply elem_of_cons in H as [->|H]; [vm_compute; reflexivity|]).
    by apply elem_of_nil in H.
  - intros ->. repeat split; vm_compute; reflexivity.
Qed.

Lemma lookups_agree_on_planets_witness :
  TravelSystem.content_for careerPlanet
  = (VString "Work Experience", AppContent getWorkContent).
Proof.
  destruct (lookups_agree_on_planets careerPlanet) as [H _].
  apply H. apply list_elem_of_here.
Defined.

(** ** Further properties: narration *)

(** X16.  [stop] ends a real playback and nothing else: afterwards the
    session is still marked as playing exactly when it was a simulated one
    (no [currentAudio]); no timer is ever cancelled, and a second [stop]
    changes nothing. *)
Theorem stop_result (w : world) :
  let s := TravelAudio.stop w in
  TravelAudio.isAudioPlaying s
  = TravelAudio.isAudioPlaying w && bool_decide (currentAudio (ta w) = None)
  ∧ timers s = timers w
  ∧ TravelAudio.stop s = s
  ∧ (currentAudio (ta w) = None -> s = w).
Proof.
  open_world w. destruct playing, cur; repeat split; discriminate.
Qed.

Lemma stop_result_witness : TravelAudio.stop orbit = orbit.
Proof.
  destruct (stop_result orbit) as (_ & _ & _ & H).
  apply H. vm_compute. reflexivity.
Defined.


(** X17.  Restarting the narration during a simulated session does not
    cancel the running end-timer: every timer pending before is pending
    after, next to the new one (due after the clip's duration, as
    [setTimeout] takes it), so the earlier timer will end the new session
    early. *)
Theorem restart_keeps_end_timer (env : TravelAudio.web_audio_env) (planetId : string)
    (a : audio_data) (w : world) :
  isPlaying (ta w) = true -> currentAudio (ta w) = None ->
  audioFiles (ta w) !! planetId = Some a -> url a = None ->
  let w' := TravelAudio.playVoiceOver env planetId w in
  timers w'
  = (timers w
     ++ [Timer (next_timer w) (clock w + Z.max 0 (to_long (duration a))) CbAudioEnd])%list
  ∧ isPlaying (ta w') = true
  ∧ forall t, t ∈ timers w -> action t = CbAudioEnd ->
      t ∈ timers w' ∧ isPlaying (ta (fire t w')) = false.
Proof.
  intros Hp Hc Hf Hu. cbv zeta.
  unfold TravelAudio.playVoiceOver. rewrite Hp.
  rewrite (stop_keeps_simulated_session w Hc).
  unfold obj_get. rewrite Hf. unfold TravelAudio.no_url. rewrite Hu.
  unfold TravelAudio.simulateAudioDuration, TravelAudio.simulated_duration, obj_get.
  rewrite Hf.
  split; [by destruct w|]. split; [by destruct w|].
  intros t Ht Hcb. split.
  - destruct w. cbn in Ht |- *. apply elem_of_app. by left.
  - unfold fire. rewrite Hcb. cbn [run_callback after].
    unfold TravelAudio.onAudioEnd, on_ta. by destruct (set_clock _ _).
Qed.

Lemma restart_keeps_end_timer_witness :
  timers (TravelAudio.playVoiceOver TravelAudio.WebStarts "education-planet" narrating)
  = (timers narrating ++ [Timer 5 11000 CbAudioEnd])%list.
Proof.
  destruct (restart_keeps_end_timer TravelAudio.WebStarts "education-planet" silent narrating)
    as [H _]; [vm_compute; reflexivity ..|].
  rewrite H. vm_compute. reflexivity.
Defined.

(** X18.  [addPlanetAudio] and [getTravelDuration].  For a planet of
    [audioFiles] the call stores the URL, the duration given is the one
    reported afterwards, and the duration reported for any other identifier
    is as before.  An identifier that is neither a planet nor an inherited
    property is refused: nothing changes and the duration reported is the
    default of 10 s.  For an inherited property that is not a planet the
    duration reported is undefined. *)
Theorem addPlanetAudio_duration (w : world) (planetId audioUrl : string) (ms : Z) :
  (is_Some (audioFiles (ta w) !! planetId) ->
   exists w',
     TravelAudio.addPlanetAudio planetId audioUrl ms w = Some w'
     ∧ TravelAudio.getTravelDuration w' planetId = Some ms
     ∧ (url <$> audioFiles (ta w') !! planetId) = Some (Some audioUrl)
     ∧ forall other, other ≠ planetId ->
         TravelAudio.getTravelDuration w' other = TravelAudio.getTravelDuration w other)
  ∧ (audioFiles (ta w) !! planetId = None -> planetId ∉ object_prototype_keys ->
     TravelAudio.addPlanetAudio planetId audioUrl ms w = Some w
     ∧ TravelAudio.getTravelDuration w planetId = Some 10000)
  ∧ (audioFiles (ta w) !! planetId = None -> planetId ∈ object_prototype_keys ->
     TravelAudio.getTravelDuration w planetId = None).
Proof.
  unfold TravelAudio.addPlanetAudio, TravelAudio.getTravelDuration, obj_get.
  split; [|split].
  - intros [a Ha]. rewrite Ha. eexists. split; [reflexivity|].
    unfold TravelAudio.set_file.
    destruct w as [? ? ? ? ? ? [? ? ? files] ? ? ?]. cbn in Ha |- *.
    rewrite lookup_insert_eq. split; [reflexivity|]. split; [reflexivity|].
    intros other Hne. by rewrite lookup_insert_ne.
  - intros Ha Hk. rewrite Ha, bool_decide_eq_false_2 by exact Hk. by split.
  - intros Ha Hk. by rewrite Ha, bool_decide_eq_true_2 by exact Hk.
Qed.

Lemma addPlanetAudio_duration_witness :
  (exists w',
     TravelAudio.addPlanetAudio "work-planet" "./assets/audio/work-experience-vo.mp3" 8000 orbit
     = Some w'
     ∧ TravelAudio.getTravelDuration w' "work-planet" = Some 8000)
  ∧ TravelAudio.getTravelDuration orbit "moon" = Some 10000
  ∧ TravelAudio.getTravelDuration orbit "toString" = None.
Proof.
  destruct (addPlanetAudio_duration orbit "work-planet"
              "./assets/audio/work-experience-vo.mp3" 8000) as (Hown & _ & _).
  destruct (addPlanetAudio_duration orbit "moon" "x.mp3" 8000) as (_ & Hmiss & _).
  destruct (addPlanetAudio_duration orbit "toString" "x.mp3" 8000) as (_ & _ & Hinh).
  split; [|split].
  - destruct Hown as (w' & Hw' & Hd & _); [vm_compute; by eexists|].
    exists w'. split; [exact Hw' | exact Hd].
  - apply Hmiss; [vm_compute; reflexivity|].
    intros H. apply list_elem_of_In in H. cbn in H. intuition discriminate.
  - apply Hinh; [vm_compute; reflexivity|].
    apply list_elem_of_In. cbn. tauto.
Defined.

(** X19.  [setVolume] clamps: for every input other than NaN the volume
    afterwards lies between 0 and 1; an input already in that range keeps
    its value; NaN is stored as NaN; the fade durations are kept, and
    setting the volume read back changes nothing. *)
Theorem setVolume_clamps (v : number) (c : audio_config) :
  (v ≠ NaN -> in_range (getVolume (setVolume v c)))
  ∧ (in_range v -> same_number (getVolume (setVolume v c)) v)
  ∧ getVolume (setVolume NaN c) = NaN
  ∧ fadeInDuration (setVolume v c) = fadeInDuration c
  ∧ fadeOutDuration (setVolume v c) = fadeOutDuration c
  ∧ setVolume (getVolume (setVolume v c)) (setVolume v c) = setVolume v c.
Proof.
  assert (forall x y, Qle_bool x y = false -> (y <= x)%Q) as Hflip.
  { intros x y H. apply Qlt_le_weak, Qnot_le_lt. intros Hle.
    apply Qle_bool_iff in Hle. congruence. }
  unfold getVolume, setVolume. cbn [volume fadeInDuration fadeOutDuration].
  split; [|split; [|split; [|split; [|split]]]]; try reflexivity.
  - intros Hv. destruct v as [q| | |]; cbn; try done.
    destruct (Qle_bool 1 q) eqn:H1; cbn; [done|].
    destruct (Qle_bool 0 q) eqn:H0; cbn.
    + split; [by apply Qle_bool_iff | by apply Hflip].
    + done.
  - destruct v as [q| | |]; cbn; try done. intros [Hq0 Hq1].
    destruct (Qle_bool 1 q) eqn:H1; cbn.
    + apply Qle_bool_iff in H1. by apply Qle_antisym.
    + apply Qle_bool_iff in Hq0. rewrite Hq0. cbn. reflexivity.
  - f_equal. destruct v as [q| | |]; cbn; try reflexivity.
    destruct (Qle_bool 1 q) eqn:H1; cbn; [reflexivity|].
    destruct (Qle_bool 0 q) eqn:H0; cbn; [|reflexivity].
    by rewrite H1, H0.
Qed.

Lemma setVolume_clamps_witness :
  in_range (getVolume (setVolume (Finite (3 # 2)) initial_audioConfig))
  ∧ same_number (getVolume (setVolume (Finite (1 # 4)) initial_audioConfig))
                (Finite (1 # 4)).
Proof.
  split.
  - apply (setVolume_clamps (Finite (3 # 2)) initial_audioConfig). discriminate.
  - apply (setVolume_clamps (Finite (1 # 4)) initial_audioConfig). split; discriminate.
Defined.

Lemma set_file_lookup planetId a w :
  audioFiles (ta (TravelAudio.set_file planetId a w)) !! planetId = Some a
  ∧ isPlaying (ta (TravelAudio.set_file planetId a w)) = isPlaying (ta w)
  ∧ audioContext (ta (TravelAudio.set_file planetId a w)) = audioContext (ta w)
  ∧ timers (TravelAudio.set_file planetId a w) = timers w.
Proof.
  destruct w as [c q n t0 t1 h [pl cu cx files] sc d ap].
  unfold TravelAudio.set_file, on_ta. cbn [ta set_ta set_audioFiles audioFiles
    isPlaying audioContext timers currentAudio].
  split; [apply lookup_insert_eq|]. repeat split.
Qed.

(** X20.  A clip with a URL that is not loaded yet: [playVoiceOver] itself
    starts nothing.  When the decode succeeds the clip's duration becomes
    the decoded one and a later [playVoiceOver] plays it through Web Audio
    without any simulated timer; when the load fails the continuation falls
    back to the simulated duration. *)
Theorem preload_outcomes (w : world) (planetId u : string) (a : audio_data) (ms : Z)
    (env : TravelAudio.web_audio_env) :
  audioFiles (ta w) !! planetId = Some a ->
  url a = Some u -> u ≠ "" -> loaded a = false ->
  audioContext (ta w) = true -> isPlaying (ta w) = false ->
  let decoded := TravelAudio.preloadAudio (TravelAudio.Decoded ms) planetId w in
  let played := TravelAudio.playVoiceOver TravelAudio.WebStarts planetId decoded in
  TravelAudio.playVoiceOver env planetId w = w
  ∧ (TravelAudio.getTravelDuration decoded planetId = Some ms
     ∧ isPlaying (ta played) = true
     ∧ currentAudio (ta played) = Some WebAudioSource
     ∧ timers played = timers w)
  ∧ TravelAudio.preloaded env planetId
      (TravelAudio.preloadAudio TravelAudio.LoadFails planetId w)
    = TravelAudio.simulateAudioDuration planetId w.
Proof.
  intros Hf Hu Hne Hl Hctx Hp. cbv zeta.
  destruct a as [au ad al ab ae]. cbn in Hu, Hl. subst au al.
  set (a := AudioData (Some u) ad false ab ae) in *.
  set (a' := AudioData (Some u) ms true true ae).
  assert (forall d l b e, TravelAudio.no_url (AudioData (Some u) d l b e) = false) as Hno.
  { intros. unfold TravelAudio.no_url. cbn. by apply bool_decide_eq_false_2. }
  assert (TravelAudio.preloadAudio (TravelAudio.Decoded ms) planetId w
          = TravelAudio.set_file planetId a' w) as Hdec.
  { unfold TravelAudio.preloadAudio, obj_get. rewrite Hf. unfold a at 1 2.
    rewrite Hno, Hctx. reflexivity. }
  assert (TravelAudio.preloadAudio TravelAudio.LoadFails planetId w = w) as Hfail.
  { unfold TravelAudio.preloadAudio, obj_get. rewrite Hf. unfold a at 1 2.
    rewrite Hno, Hctx. reflexivity. }
  split; [|split].
  - unfold TravelAudio.playVoiceOver. rewrite Hp. unfold obj_get. rewrite Hf.
    unfold a. by rewrite Hno.
  - rewrite Hdec.
    destruct (set_file_lookup planetId a' w) as (Hl' & Hp' & Hc' & Ht').
    unfold TravelAudio.getTravelDuration, obj_get.
    rewrite Hl'. split; [reflexivity|].
    assert (TravelAudio.playVoiceOver TravelAudio.WebStarts planetId
              (TravelAudio.set_file planetId a' w)
            = on_ta (set_currentAudio (Some WebAudioSource))
                    (on_ta (set_isPlaying true) (TravelAudio.set_file planetId a' w)))
      as ->.
    { unfold TravelAudio.playVoiceOver. rewrite Hp', Hp. unfold obj_get. rewrite Hl'.
      unfold a' at 1 2. rewrite Hno. cbn [loaded negb].
      unfold TravelAudio.playAudio, obj_get.
      replace (audioFiles (ta (on_ta (set_isPlaying true)
                                     (TravelAudio.set_file planetId a' w)))
                 !! planetId) with (Some a')
        by (symmetry; destruct w as [c q n t0 t1 h [pl cu cx files] sc d ap];
            apply lookup_insert_eq).
      replace (audioContext (ta (on_ta (set_isPlaying true)
                                       (TravelAudio.set_file planetId a' w)))) with true
        by (destruct w as [c q n t0 t1 h [pl cu cx files] sc d ap];
            cbn in Hctx |- *; congruence).
      reflexivity. }
    destruct w as [c q n t0 t1 h [pl cu cx files] sc d ap]. repeat split.
  - rewrite Hfail. unfold TravelAudio.preloaded, obj_get. by rewrite Hf.
Qed.

Lemma preload_outcomes_witness :
  let ready := default orbit
                 (TravelAudio.addPlanetAudio "work-planet"
                    "./assets/audio/work-experience-vo.mp3" 10000 orbit) in
  currentAudio
    (ta (TravelAudio.playVoiceOver TravelAudio.WebStarts "work-planet"
           (TravelAudio.preloadAudio (TravelAudio.Decoded 8000) "work-planet" ready)))
  = Some WebAudioSource.
Proof.
  cbv zeta.
  destruct (preload_outcomes
              (default orbit
                 (TravelAudio.addPlanetAudio "work-planet"
                    "./assets/audio/work-experience-vo.mp3" 10000 orbit))
              "work-planet" "./assets/audio/work-experience-vo.mp3"
              (AudioData (Some "./assets/audio/work-experience-vo.mp3") 10000 false false false)
              8000 TravelAudio.WebStarts)
    as (_ & (_ & _ & H & _) & _);
    [vm_compute; reflexivity | reflexivity | discriminate | reflexivity
    | vm_compute; reflexivity | vm_compute; reflexivity | exact H].
Defined.

(** ** Further properties: the registry of phase timers *)

(** X21.  The registry keeps one timer per name.  When the coordinator's
    [arriveAtPlanet] runs twice, the second timer replaces the first under
    the name 'showContent' without cancelling it, and [clearPhaseTimers]
    then cancels the second only: the first is still pending. *)
Theorem reregistered_timer_is_orphaned (w : world) :
  (forall name, phaseTimers (ts w) !! name ≠ Some (next_timer w)) ->
  let twice := TravelSystem.arriveAtPlanet (TravelSystem.arriveAtPlanet w) in
  phaseTimers (ts twice) !! "showContent" = Some (S (next_timer w))
  ∧ pending (next_timer w) twice
  ∧ pending (S (next_timer w)) twice
  ∧ pending (next_timer w) (TravelSystem.clearPhaseTimers twice)
  ∧ ¬ pending (S (next_timer w)) (TravelSystem.clearPhaseTimers twice).
Proof.
  intros Hfresh. cbv zeta. rewrite clearPhaseTimers_eq.
  unfold TravelSystem.arriveAtPlanet, TravelSystem.set_phase_timer, setTimeout.
  destruct w as [c q n [trav tphase tsel tstart torig tpt] ? ? ? ? ? ?].
  cbn in Hfresh. cbn -[kept insert Z.add Z.max].
  set (m := <[ "showContent" := S n ]> (<[ "showContent" := n ]> tpt)).
  assert (m !! "showContent" = Some (S n)) as Hm by apply lookup_insert_eq.
  set (t1 := Timer n _ CbTsShowContent). set (t2 := Timer (S n) _ CbTsShowContent).
  split; [exact Hm|]. split; [|split; [|split]].
  - exists t1. split; [|reflexivity]. rewrite <- app_assoc.
    apply elem_of_app. right. apply list_elem_of_here.
  - exists t2. split; [|reflexivity].
    apply elem_of_app. right. apply list_elem_of_here.
  - exists t1. split; [|reflexivity]. unfold pending, kept.
    apply list_elem_of_filter. split.
    + intros Hin. apply live_elem_inv in Hin as [name Hname].
      destruct (decide (name = "showContent")) as [->|Hn].
      * rewrite Hm in Hname. injection Hname. lia.
      * unfold m in Hname. rewrite !lookup_insert_ne in Hname by done.
        by apply (Hfresh name).
    + rewrite <- app_assoc. apply elem_of_app. right. apply list_elem_of_here.
  - intros [t [Ht Hid]]. cbn in Ht.
    exact (kept_not_registered m _ "showContent" (S n) t Hm (Nat.neq_succ_0 n) Ht Hid).
Qed.

Lemma reregistered_timer_is_orphaned_witness :
  pending 4 (TravelSystem.clearPhaseTimers
               (TravelSystem.arriveAtPlanet (TravelSystem.arriveAtPlanet in_hyperspace))).
Proof.
  destruct (reregistered_timer_is_orphaned in_hyperspace) as (_ & _ & _ & H & _).
  - intros name. vm_compute. discriminate.
  - exact H.
Defined.

(** ** Further properties: the effect in reachable states *)

Lemma effect_ok_frame w w' :
  ht w' = ht w -> cockpit_active (dom w') = cockpit_active (dom w) ->
  effect_ok w -> effect_ok w'.
Proof.
  unfold effect_ok, effect_hidden. intros -> ->. done.
Qed.

Ltac member := apply list_elem_of_In; cbn; tauto.

Ltac no_member H := apply list_elem_of_In in H; cbn in H; intuition discriminate.

Ltac framed w :=
  apply (effect_ok_frame w); [| |assumption]; open_world w.

Lemma construct_effect_ok now sc ctx : effect_ok (construct now sc ctx).
Proof.
  unfold effect_ok, effect_hidden. cbn.
  repeat split; try member. repeat constructor.
Qed.

Lemma cleanup_effect_ok w : effect_ok (HyperspaceTravel.executeCompleteCleanup w).
Proof.
  open_world w. unfold effect_ok, effect_hidden. evaluate.
  repeat split; try member. apply Forall_map_false.
Qed.

Lemma initiatePlanetTravel_effect_ok p w :
  effect_ok w -> effect_ok (TravelSystem.initiatePlanetTravel p w).
Proof. intros H. framed w; by destruct trav, vis. Qed.

Lemma hide_effect_ok w : effect_ok w -> effect_ok (TravelConfirmation.hide w).
Proof. intros H. framed w; by destruct vis. Qed.

Lemma cancelTravel_effect_ok w : effect_ok w -> effect_ok (TravelSystem.cancelTravel w).
Proof.
  intros H. apply (effect_ok_frame w); [| |assumption].
  - apply cancelTravel_frame.
  - closed_forms. open_world w. by destruct vis, dpi.
Qed.

Lemma handleConfirm_effect_ok w :
  effect_ok w -> effect_ok (ConfirmationButtons.handleConfirm w).
Proof. intros H. framed w; by destruct csel. Qed.

Lemma returnToOrbit_effect_ok w : effect_ok w -> effect_ok (TravelSystem.returnToOrbit w).
Proof.
  intros H. apply (effect_ok_frame w); [| |assumption];
    closed_forms; open_world w; by destruct dpi.
Qed.

Lemma emergencyReturnToOrbit_effect_ok w :
  effect_ok (TravelSystem.emergencyReturnToOrbit w).
Proof.
  closed_forms. open_world w. unfold effect_ok, effect_hidden.
  destruct act, playing, cur, dpi; evaluate;
    repeat split; try member; apply Forall_map_false.
Qed.

Lemma startTravel_effect_ok p w :
  effect_ok w -> effect_ok (HyperspaceTravel.startTravel p w).
Proof.
  intros H. unfold HyperspaceTravel.startTravel.
  destruct (isActive (ht w)) eqn:Ha; [exact H|].
  open_world w. unfold effect_ok. evaluate. split; [by eexists | member].
Qed.

Lemma startTravelSequence_effect_ok w :
  effect_ok w -> effect_ok (TravelSystem.startTravelSequence w).
Proof.
  intros H. unfold TravelSystem.startTravelSequence.
  destruct (ts_selectedPlanet (ts w)) as [p|]; [|exact H].
  apply startTravel_effect_ok.
  apply (effect_ok_frame w); [| |assumption]; open_world w; by destruct vis.
Qed.

Lemma transitionToApproach_effect_ok w :
  effect_ok w -> effect_ok (HyperspaceTravel.transitionToApproach w).
Proof.
  intros H. unfold HyperspaceTravel.transitionToApproach.
  case_bool_decide as Hph; [|exact H]. cbn [negb].
  open_world w. cbn in Hph. subst hphase. unfold effect_ok in *. cbn in H |- *.
  destruct act.
  - destruct H as [[p ->] _].
    cbv -[HyperspaceTravel.getPlanetColors elem_of]. split; [by eexists | member].
  - destruct H as (_ & _ & H). no_member H.
Qed.

Lemma arriveAtPlanet_effect_ok w :
  effect_ok w -> effect_ok (HyperspaceTravel.arriveAtPlanet w).
Proof.
  intros H. unfold HyperspaceTravel.arriveAtPlanet.
  case_bool_decide as Hph; [|exact H]. cbn [negb].
  open_world w. cbn in Hph. subst hphase. unfold effect_ok in *. cbn in H |- *.
  destruct act.
  - destruct H as [H _]. split; [exact H | member].
  - destruct H as (_ & _ & H). no_member H.
Qed.

Lemma showPlanetContent_effect w :
  ht (after (HyperspaceTravel.showPlanetContent w))
    = set_ht_currentPhase "content" (ht w)
  /\ cockpit_active (dom (after (HyperspaceTravel.showPlanetContent w)))
    = cockpit_active (dom w).
Proof.
  open_world w. destruct hsel as [[pid pname pdesc]|]; [|by split].
  cbv -[HyperspaceTravel.getTitleForPlanet HyperspaceTravel.getContentForPlanet
        Datatypes.app].
  destruct (HyperspaceTravel.getContentForPlanet pid); by split.
Qed.

Lemma showPlanetContent_effect_ok w :
  effect_ok w -> effect_ok (after (HyperspaceTravel.showPlanetContent w)).
Proof.
  intros H. destruct (showPlanetContent_effect w) as [Hh Hd].
  unfold effect_ok, effect_hidden in *. rewrite Hh, Hd. clear Hh Hd.
  open_world w. cbn in H |- *. destruct act.
  - destruct H as [H _]. split; [exact H | member].
  - destruct H as (Hh & Hs & _). split; [exact Hh | split; [exact Hs | member]].
Qed.

Lemma fade_black_effect_ok w : effect_ok (HyperspaceTravel.fade_black w).
Proof.
  open_world w. unfold effect_ok, effect_hidden. evaluate.
  repeat split; try member. apply Forall_map_false.
Qed.

Lemma run_callback_effect_ok cb w :
  phase_callback cb = false -> effect_ok w -> effect_ok (after (run_callback cb w)).
Proof.
  intros Hlive H. destruct cb; try discriminate Hlive; clear Hlive;
    cbn [run_callback after].
  - (* CbConfirmEntrance *) by framed w.
  - (* CbConfirmHidden *) by framed w.
  - (* CbConfirmLaunch *) by apply startTravelSequence_effect_ok.
  - (* CbHsToApproach *) by apply transitionToApproach_effect_ok.
  - (* CbHsArrive *) by apply arriveAtPlanet_effect_ok.
  - (* CbHsShowContent *) by apply showPlanetContent_effect_ok.
  - (* CbFadeBlack *) apply fade_black_effect_ok.
  - (* CbFadeBack *) by framed w.
  - (* CbFadeRemove *) by framed w.
  - (* CbAudioEnd *) by framed w.
Qed.

Lemma fire_effect_ok t w :
  t ∈ timers w -> coherent w -> effect_ok w -> effect_ok (fire t w).
Proof.
  intros Ht Hc H.
  assert (phase_callback (action t) = false) as Hlive.
  { destruct Hc as [_ _ Hq]. rewrite Forall_forall in Hq. by apply Hq. }
  unfold fire. apply run_callback_effect_ok; [exact Hlive|].
  by apply (effect_ok_frame w).
Qed.

(** Every reachable state satisfies [effect_ok]: by induction on the events
    that led to it. *)
Lemma reachable_effect_ok w : reachable w -> effect_ok w.
Proof.
  induction 1 as [now sc ctx | e w Hw IH He].
  - apply construct_effect_ok.
  - destruct e; unfold handle.
    + by apply initiatePlanetTravel_effect_ok.
    + by apply handleConfirm_effect_ok.
    + unfold ConfirmationButtons.handleCancel.
      by apply hide_effect_ok, cancelTravel_effect_ok.
    + by apply startTravelSequence_effect_ok.
    + by apply cancelTravel_effect_ok.
    + by apply returnToOrbit_effect_ok.
    + apply emergencyReturnToOrbit_effect_ok.
    + apply fire_effect_ok; [exact He | by apply reachable_coherent | exact IH].
Qed.

(** X22. In every state the wired-up system can reach, an inactive effect
    shows nothing: its group and every star are hidden, there is no approach
    planet, the black screen, the cockpit overlay and the body's cockpit class
    are off, and it holds no planet; and an active effect always holds a
    planet, so that its deferred [showPlanetContent] cannot throw. *)
Theorem inactive_effect_is_hidden w :
  reachable w ->
  (isActive (ht w) = false ->
   effect_hidden w /\ ht_selectedPlanet (ht w) = None)
  /\ (isActive (ht w) = true ->
      exists w', HyperspaceTravel.showPlanetContent w = Done w').
Proof.
  intros Hw. pose proof (reachable_effect_ok w Hw) as H. unfold effect_ok in H.
  split; intros Ha; rewrite Ha in H.
  - destruct H as (Hh & Hs & _). by split.
  - destruct H as [[p Hp] _].
    open_world w. cbn in Hp. subst hsel. destruct p as [pid pname pdesc].
    cbv -[HyperspaceTravel.getTitleForPlanet HyperspaceTravel.getContentForPlanet
          Datatypes.app].
    destruct (HyperspaceTravel.getContentForPlanet pid); by eexists.
Qed.

Lemma inactive_effect_is_hidden_witness :
  effect_hidden orbit /\ exists w', HyperspaceTravel.showPlanetContent launched = Done w'.
Proof.
  destruct (inactive_effect_is_hidden orbit reachable_orbit) as [Hoff _].
  destruct (inactive_effect_is_hidden launched reachable_launched) as [_ Hon].
  split.
  - apply Hoff. reflexivity.
  - apply Hon. vm_compute. reflexivity.
Defined.
